(** * The root controller of the map-style editor (src/components/App.jsx)

    A shallow embedding of the [App] component: its state object, the
    revision store it drives, its event handlers and the callbacks of the
    requests it starts, followed by the properties of the controller.

    Conventions of the embedding.
    - JavaScript objects used as dictionaries (the source cache, the style
      specification) are finite maps; the [sources] object of a style is
      kept as the list [Object.entries] iterates over.
    - A value that may be [undefined] or [null] is an [option].
    - A handler is a computation over the component instance: it reads
      [this.state], queues [setState] updates, talks to the revision store,
      starts requests (recorded in a trace) and may throw. *)

From stdpp Require Import gmap strings list fin_maps.

Open Scope string_scope.
Open Scope list_scope.

(** ** Style documents *)

(** One entry of [mapStyle.sources]: [val.type], and [val.url] when the
    object has a [url] property. *)
Record Source := mkSource {
  src_type : string;
  src_url : option string
}.

(** A layer: its [id] and its remaining properties. *)
Record Layer := mkLayer {
  id : string;
  layer_props : list (string * string)
}.

(** The style document, restricted to the fields the controller reads. *)
Record Style := mkStyle {
  glyphs : option string;
  sprite : option string;
  metadata : option (gmap string string);
  sources : list (string * Source);
  layers : list Layer
}.

#[global] Instance Source_eq_dec : EqDecision Source.
Proof. solve_decision. Defined.
#[global] Instance Layer_eq_dec : EqDecision Layer.
Proof. solve_decision. Defined.
#[global] Instance Style_eq_dec : EqDecision Style.
Proof. solve_decision. Defined.

(** ** The style specification held in [state.spec] *)

Inductive SpecValue :=
| SpecText (s : string)
| SpecValues (vs : list string).

(** A field description of the specification, e.g. [spec.$root.glyphs]. *)
Abbreviation FieldSpec := (gmap string SpecValue).

(** The specification: its [$root] section and its other sections. *)
Record Spec := mkSpec {
  spec_root : gmap string FieldSpec;
  spec_sections : gmap string (gmap string FieldSpec)
}.

(** [updateRootSpec(spec, fieldName, newValues)], lines 27-38: a copy of
    [spec] whose [$root[fieldName]] has [values] replaced; a field absent
    from [$root] spreads as the empty object. *)
Definition updateRootSpec (spec : Spec) (fieldName : string)
    (newValues : list string) : Spec :=
  {| spec_root :=
       <[ fieldName :=
            <[ "values" := SpecValues newValues ]>
              (default ∅ (spec_root spec !! fieldName)) ]> (spec_root spec);
     spec_sections := spec_sections spec |}.

(** ** Component state *)

(** An entry of the source-metadata cache, [{type, layers}]. *)
Record SourceEntry := mkEntry {
  entry_type : string;
  entry_layers : list string
}.

#[global] Instance SourceEntry_eq_dec : EqDecision SourceEntry.
Proof. solve_decision. Defined.

(** [this.state], lines 58-67.  [mapStyle] is [None] when the field holds
    [undefined]; [selectedLayerIndex] is [None] when it holds the value
    [indexOfLayer] gives for an id that no layer carries. *)
Record State := mkState {
  errors : list string;
  infos : list string;
  mapStyle : option Style;
  selectedLayerIndex : option nat;
  st_sources : gmap string SourceEntry;
  vectorLayers : gmap string (list string);
  inspectModeEnabled : bool;
  spec : Spec
}.

(** The argument object of one [setState] call, field by field. *)
Inductive FieldUpdate :=
| SetErrors (v : list string)
| SetInfos (v : list string)
| SetMapStyle (v : option Style)
| SetSelectedLayerIndex (v : option nat)
| SetSources (v : gmap string SourceEntry)
| SetVectorLayers (v : gmap string (list string))
| SetInspectModeEnabled (v : bool)
| SetSpec (v : Spec).

Definition apply_field (s : State) (u : FieldUpdate) : State :=
  match u with
  | SetErrors v =>
      mkState v (infos s) (mapStyle s) (selectedLayerIndex s) (st_sources s)
              (vectorLayers s) (inspectModeEnabled s) (spec s)
  | SetInfos v =>
      mkState (errors s) v (mapStyle s) (selectedLayerIndex s) (st_sources s)
              (vectorLayers s) (inspectModeEnabled s) (spec s)
  | SetMapStyle v =>
      mkState (errors s) (infos s) v (selectedLayerIndex s) (st_sources s)
              (vectorLayers s) (inspectModeEnabled s) (spec s)
  | SetSelectedLayerIndex v =>
      mkState (errors s) (infos s) (mapStyle s) v (st_sources s)
              (vectorLayers s) (inspectModeEnabled s) (spec s)
  | SetSources v =>
      mkState (errors s) (infos s) (mapStyle s) (selectedLayerIndex s) v
              (vectorLayers s) (inspectModeEnabled s) (spec s)
  | SetVectorLayers v =>
      mkState (errors s) (infos s) (mapStyle s) (selectedLayerIndex s)
              (st_sources s) v (inspectModeEnabled s) (spec s)
  | SetInspectModeEnabled v =>
      mkState (errors s) (infos s) (mapStyle s) (selectedLayerIndex s)
              (st_sources s) (vectorLayers s) v (spec s)
  | SetSpec v =>
      mkState (errors s) (infos s) (mapStyle s) (selectedLayerIndex s)
              (st_sources s) (vectorLayers s) (inspectModeEnabled s) v
  end.

(** The shallow merge React performs with the object given to [setState]. *)
Definition merge_state (s : State) (us : list FieldUpdate) : State :=
  foldl apply_field s us.

(** ** The revision store *)

Module RevisionStore.

(** Modelled from the spec: the class [RevisionStore] of libs/revisions
    is not among the sources.  The spec describes it as a "linear
    undo/redo snapshot stack over style documents" holding
    "full-document snapshots with no merging": the snapshots in the order
    they were added and a cursor on the current one. *)
Record t := mk {
  revisions : list Style;
  currentIdx : nat
}.

(** Modelled from the spec: [new RevisionStore()], the empty stack. *)
Definition empty : t := mk [] 0.

(** Modelled from the spec: the snapshot under the cursor; there is none
    in an empty stack. *)
Definition current (rs : t) : option Style :=
  revisions rs !! currentIdx rs.

(** Modelled from the spec: [addRevision] pushes the snapshot, as it is,
    on top of the stack and makes it the current one. *)
Definition addRevision (revision : Style) (rs : t) : t :=
  mk (revisions rs ++ [revision]) (length (revisions rs)).

(** Modelled from the spec: [undo] steps the cursor back to the previous
    snapshot when there is one and returns the snapshot under it. *)
Definition undo (rs : t) : t * option Style :=
  let rs' := if decide (0 < currentIdx rs)
             then mk (revisions rs) (currentIdx rs - 1) else rs in
  (rs', current rs').

(** Modelled from the spec: [redo] steps the cursor forward to the next
    snapshot when there is one and returns the snapshot under it. *)
Definition redo (rs : t) : t * option Style :=
  let rs' := if decide (currentIdx rs + 1 < length (revisions rs))
             then mk (revisions rs) (currentIdx rs + 1) else rs in
  (rs', current rs').

End RevisionStore.

(** ** What the component is given *)

(** An error object of [styleSpec.validate]. *)
Record ValidationError := mkError {
  message : string;
  line : option nat
}.

(** The request object [props.transformRequest] answers with. *)
Record Request := mkRequest {
  req_url : string;
  req_headers : list (string * string)
}.

(** The props other than [mapStyle], the imported libraries and the mode
    React processes [setState] in.
    - [validate newStyle] is [styleSpec.validate(newStyle, styleSpec.latest)];
    - [undoMessages], [redoMessages] are the change summaries of
      libs/diffmessage;
    - [transformRequest url] is [None] when the prop returns [undefined];
    - [tokens_openmaptiles] is [tokens.openmaptiles] of config/tokens.json;
    - [latest] is [styleSpec.latest];
    - [batched] tells whether [setState] calls are queued until the handler
      returns (React event handlers) or applied at once. *)
Record Env := mkEnv {
  validate : Style -> list ValidationError;
  undoMessages : option Style -> option Style -> list string;
  redoMessages : option Style -> option Style -> list string;
  transformRequest : string -> option Request;
  tokens_openmaptiles : string;
  latest : Spec;
  batched : bool
}.

(** [static defaultProps], line 51: [(url) => {url}] is an arrow function
    with a block body and no [return]; it answers [undefined]. *)
Definition default_transformRequest : string -> option Request :=
  fun url => None.

(** What a handler does to the outside: calls of the [onSnapshotSave] prop,
    downloads and fetches it starts, console output. *)
Inductive Effect :=
| OnSnapshotSave (snapshotStyle : option Style)
| DownloadGlyphsMetadata (glyphUrl : option string)
| DownloadSpriteMetadata (baseUrl : option string)
| Fetch (key : string) (req : Request)
| ConsoleDebug (msg : string)
| ConsoleError (msg : string).

Inductive Exn :=
| TypeError (what : string)
| ReferenceError (ident : string).

Inductive Result (A : Type) :=
| Ok (a : A)
| Throw (e : Exn).
Arguments Ok {A} a.
Arguments Throw {A} e.

(** ** The component instance *)

(** [this]: the state reads see, the state the queued [setState] calls
    lead to, the revision store, and the trace of effects so far. *)
Record Comp := mkComp {
  this_state : State;
  next_state : State;
  revisionStore : RevisionStore.t;
  trace : list Effect
}.

(** A handler body: it runs on the instance, ends with a value or an
    exception, and leaves the instance as it was when it ended. *)
Definition M (A : Type) : Type := Comp -> Result A * Comp.

Definition ret {A} (a : A) : M A := fun c => (Ok a, c).

Definition bind {A B} (m : M A) (k : A -> M B) : M B :=
  fun c => match m c with
           | (Ok a, c') => k a c'
           | (Throw e, c') => (Throw e, c')
           end.

Definition throw {A} (e : Exn) : M A := fun c => (Throw e, c).

Declare Scope handler_scope.
Delimit Scope handler_scope with M.
Notation "x <- m ;; k" := (bind m (fun x => k))
  (at level 100, m at next level, right associativity) : handler_scope.
Notation "m ;;; k" := (bind m (fun _ => k))
  (at level 100, right associativity) : handler_scope.
Open Scope handler_scope.

(** [this.state] *)
Definition getState : M State := fun c => (Ok (this_state c), c).

(** [this.revisionStore] *)
Definition getStore : M RevisionStore.t := fun c => (Ok (revisionStore c), c).

Definition putStore (rs : RevisionStore.t) : M unit :=
  fun c => (Ok tt, mkComp (this_state c) (next_state c) rs (trace c)).

Definition emit (e : Effect) : M unit :=
  fun c => (Ok tt, mkComp (this_state c) (next_state c) (revisionStore c)
                          (trace c ++ [e])).

(** An object of [this.state] changed in place: every holder sees it. *)
Definition mutate (f : State -> State) : M unit :=
  fun c => (Ok tt, mkComp (f (this_state c)) (f (next_state c))
                          (revisionStore c) (trace c)).

(** A [try]/[catch], or a promise's [.catch]: the handler runs on what the
    body left behind when it threw. *)
Definition try_catch {A} (m : M A) (h : Exn -> M A) : M A :=
  fun c => match m c with
           | (Ok a, c') => (Ok a, c')
           | (Throw e, c') => h e c'
           end.

(** ** Helpers of libs/style.js and of the JavaScript runtime *)

(** Modelled from the spec: [style.indexOfLayer] of libs/style.js is not
    among the sources.  The controller selects by "a selection index into
    the layer list": the position of the first layer carrying the id.  For
    an id that no layer carries the answer is not a position, [None]. *)
Fixpoint indexOfLayer (layers : list Layer) (layerId : string) : option nat :=
  match layers with
  | [] => None
  | l :: rest =>
      if decide (id l = layerId) then Some 0
      else S <$> indexOfLayer rest layerId
  end.

(** [arr[idx] = v] on a copy of the layer array, for the [idx] that
    [indexOfLayer] answered: a position is overwritten; the non-position
    becomes a property name of the array object and its elements stay. *)
Definition array_set (arr : list Layer) (idx : option nat) (v : Layer)
    : list Layer :=
  match idx with
  | Some i => <[ i := v ]> arr
  | None => arr
  end.

(** [arr[idx]], [undefined] outside the array. *)
Definition array_get (arr : list Layer) (idx : option nat) : option Layer :=
  match idx with
  | Some i => arr !! i
  | None => None
  end.

(** [s.replace(pat, rep)] for a string pattern: the first occurrence only. *)
Fixpoint replace_first (pat rep s : string) : string :=
  if String.prefix pat s
  then rep +:+ String.substring (String.length pat)
                                (String.length s - String.length pat) s
  else match s with
       | EmptyString => EmptyString
       | String ch rest => String ch (replace_first pat rep rest)
       end.

(** [a || b] on strings: the empty string and [undefined] are falsy. *)
Definition or_else (a : option string) (b : string) : string :=
  match a with
  | Some EmptyString | None => b
  | Some v => v
  end.

(** The identifiers bound where the [.catch] callback of [fetchSources]
    (lines 224-226) is written: its parameter, the locals of the loop body
    and of the method, the module's imports and declarations, and the
    globals of the runtime the module uses. *)
Definition catch_scope : list string :=
  [ "err"; "req"; "key"; "val"; "sourceList";
    "React"; "PropTypes"; "Mousetrap"; "MapboxGlMap"; "LayerList";
    "LayerEditor"; "Toolbar"; "AppLayout"; "MessagePanel";
    "downloadGlyphsMetadata"; "downloadSpriteMetadata"; "styleSpec"; "style";
    "initialStyleUrl"; "loadStyleUrl"; "undoMessages"; "redoMessages";
    "loadDefaultStyle"; "StyleStore"; "RevisionStore"; "LayerWatcher";
    "tokens"; "isEqual"; "Debug"; "MapboxGl"; "updateRootSpec"; "App";
    "console"; "fetch"; "Object" ].

(** Evaluating an identifier: a [ReferenceError] when nothing binds it. *)
Definition resolve (scope : list string) (ident : string) : M unit :=
  if decide (ident ∈ scope) then ret tt else throw (ReferenceError ident).

(** The props object, as far as the state is derived from it. *)
Record Props := mkProps {
  props_mapStyle : Style
}.

(** [{}] read as a style: every field absent. *)
Definition empty_object : Style := mkStyle None None None [] [].

(** The response body of a source's metadata: [json.vector_layers] when
    the object has that property, as the list of the layers' ids. *)
Record SourceJson := mkJson {
  vector_layers : option (list string)
}.

(** ** The methods of [App] *)

Section App.

Variable env : Env.

(** [this.setState(obj)]: queued behind the earlier calls; in a batch
    [this.state] stays as it is until the handler returns. *)
Definition setState (us : list FieldUpdate) : M unit :=
  fun c =>
    let n := merge_state (next_state c) us in
    (Ok tt, mkComp (if batched env then this_state c else n) n
                   (revisionStore c) (trace c)).

(** [this.state.mapStyle.f]: a [TypeError] when [mapStyle] is undefined. *)
Definition readStyle : M Style :=
  s <- getState ;;
  match mapStyle s with
  | Some st => ret st
  | None => throw (TypeError "this.state.mapStyle is undefined")
  end.

(** [constructor(props)], lines 54-72. *)
Definition constructor (props : Props) : Comp :=
  let st := {| errors := [];
               infos := [];
               mapStyle := Some (props_mapStyle props);
               selectedLayerIndex := Some 0;
               st_sources := ∅;
               vectorLayers := ∅;
               inspectModeEnabled := false;
               spec := latest env |} in
  mkComp st st RevisionStore.empty [].

(** The [onVectorLayersChange] callback given to the layer watcher,
    line 70. *)
Definition onVectorLayersChange (v : gmap string (list string)) : M unit :=
  setState [SetVectorLayers v].

(** [saveStyle(snapshotStyle)], lines 88-90. *)
Definition saveStyle (snapshotStyle : option Style) : M unit :=
  emit (OnSnapshotSave snapshotStyle).

(** [updateFonts(urlTemplate)], lines 92-100, up to the start of the
    download. *)
Definition updateFonts (urlTemplate : option string) : M unit :=
  st <- readStyle ;;
  let metadata := default ∅ (metadata st) in
  let accessToken :=
    or_else (metadata !! "maputnik:openmaptiles_access_token")
            (tokens_openmaptiles env) in
  let glyphUrl := replace_first "{key}" accessToken <$> urlTemplate in
  emit (DownloadGlyphsMetadata glyphUrl).

(** The callback of the glyph download, lines 97-99. *)
Definition fontsLoaded (fonts : list string) : M unit :=
  s <- getState ;;
  setState [SetSpec (updateRootSpec (spec s) "glyphs" fonts)].

(** [updateIcons(baseUrl)], lines 102-106, up to the start of the
    download. *)
Definition updateIcons (baseUrl : option string) : M unit :=
  emit (DownloadSpriteMetadata baseUrl).

(** The callback of the sprite download, lines 103-105. *)
Definition iconsLoaded (icons : list string) : M unit :=
  s <- getState ;;
  setState [SetSpec (updateRootSpec (spec s) "sprite" icons)].

(** The loop of [fetchSources], lines 192-228, over the entries still to
    visit; [sourceList] is the local the loop fills. *)
Fixpoint fetchSources_loop (entries : list (string * Source))
    (sourceList : gmap string SourceEntry) : M (gmap string SourceEntry) :=
  match entries with
  | [] => ret sourceList
  | (key, val) :: rest =>
      if decide (is_Some (sourceList !! key))
      then fetchSources_loop rest sourceList
      else
        let sourceList' :=
          <[ key := mkEntry (src_type val) [] ]> sourceList in
        s <- getState ;;
        (if bool_decide (st_sources s !! key = None)
              && bool_decide (src_type val = "vector")
         then match src_url val with
              | Some url =>
                  match transformRequest env url with
                  | Some req => emit (Fetch key req)
                  | None => throw (TypeError "req is undefined")
                  end
              | None => ret tt
              end
         else ret tt) ;;;
        fetchSources_loop rest sourceList'
  end.

(** [fetchSources()], lines 189-236. *)
Definition fetchSources : M unit :=
  s <- getState ;;
  let sourceList := st_sources s in
  st <- readStyle ;;
  sourceList' <- fetchSources_loop (sources st) sourceList ;;
  s' <- getState ;;
  if decide (st_sources s' = sourceList') then ret tt
  else
    emit (ConsoleDebug "Setting sources") ;;;
    setState [SetSources sourceList'].

(** The second [.then] callback of a source's fetch, lines 207-223.
    [sources] is a shallow copy of [this.state.sources]: the entry whose
    [layers] array the loop pushes on is the one the state holds. *)
Definition sourceLoaded (key : string) (json : SourceJson) : M unit :=
  match vector_layers json with
  | None => ret tt
  | Some ids =>
      s <- getState ;;
      let sources := st_sources s in
      let push := fun entry =>
        mkEntry (entry_type entry) (entry_layers entry ++ ids) in
      (match ids with
       | [] => ret tt
       | _ :: _ =>
           if decide (is_Some (sources !! key))
           then mutate (fun st =>
                  merge_state st
                    [SetSources (alter push key (st_sources st))])
           else throw (TypeError "sources[key] is undefined")
       end) ;;;
      emit (ConsoleDebug ("Updating source: " +:+ key)) ;;;
      setState [SetSources (alter push key sources)]
  end.

(** The [.catch] callback of a source's fetch, lines 224-226. *)
Definition sourceFailed (err : Exn) : M unit :=
  resolve catch_scope "url" ;;;
  emit (ConsoleError "Failed to process sources for '%s'").

(** The promise chain of one fetch once the response body is there:
    what the [.then] callback throws goes to the [.catch] callback. *)
Definition sourceResponse (key : string) (json : SourceJson) : M unit :=
  try_catch (sourceLoaded key json) sourceFailed.

(** [onStyleChanged(newStyle, save)], lines 108-133. *)
Definition onStyleChanged (newStyle : Style) (save : bool) : M unit :=
  let errors := validate env newStyle in
  (if decide (length errors = 0) then
     cur <- readStyle ;;
     (if decide (glyphs newStyle ≠ glyphs cur)
      then updateFonts (glyphs newStyle) else ret tt) ;;;
     cur <- readStyle ;;
     (if decide (sprite newStyle ≠ sprite cur)
      then updateIcons (sprite newStyle) else ret tt) ;;;
     rs <- getStore ;;
     putStore (RevisionStore.addRevision newStyle rs) ;;;
     (if save then saveStyle (Some newStyle) else ret tt) ;;;
     setState [SetMapStyle (Some newStyle); SetErrors []]
   else
     setState [SetErrors (message <$> errors)]) ;;;
  fetchSources.

(** [onUndo()], lines 135-143. *)
Definition onUndo : M unit :=
  rs <- getStore ;;
  let '(rs', activeStyle) := RevisionStore.undo rs in
  putStore rs' ;;;
  s <- getState ;;
  let messages := undoMessages env (mapStyle s) activeStyle in
  saveStyle activeStyle ;;;
  setState [SetMapStyle activeStyle; SetInfos messages].

(** [onRedo()], lines 145-153. *)
Definition onRedo : M unit :=
  rs <- getStore ;;
  let '(rs', activeStyle) := RevisionStore.redo rs in
  putStore rs' ;;;
  s <- getState ;;
  let messages := redoMessages env (mapStyle s) activeStyle in
  saveStyle activeStyle ;;;
  setState [SetMapStyle activeStyle; SetInfos messages].

(** [onLayersChange(changedLayers)], lines 155-161; spreading an
    undefined [mapStyle] contributes no property. *)
Definition onLayersChange (changedLayers : list Layer) : M unit :=
  s <- getState ;;
  let base := default empty_object (mapStyle s) in
  let changedStyle :=
    mkStyle (glyphs base) (sprite base) (metadata base) (sources base)
            changedLayers in
  onStyleChanged changedStyle true.

(** [onLayerIdChange(oldId, newId)], lines 163-173. *)
Definition onLayerIdChange (oldId newId : string) : M unit :=
  st <- readStyle ;;
  let changedLayers := layers st in
  let idx := indexOfLayer changedLayers oldId in
  let renamed :=
    mkLayer newId
            (default [] (layer_props <$> array_get changedLayers idx)) in
  onLayersChange (array_set changedLayers idx renamed).

(** [onLayerChanged(layer)], lines 175-181. *)
Definition onLayerChanged (layer : Layer) : M unit :=
  st <- readStyle ;;
  let changedLayers := layers st in
  let idx := indexOfLayer changedLayers (id layer) in
  onLayersChange (array_set changedLayers idx layer).

(** [changeInspectMode()], lines 183-187. *)
Definition changeInspectMode : M unit :=
  s <- getState ;;
  setState [SetInspectModeEnabled (negb (inspectModeEnabled s))].

(** [onLayerSelect(layerId)], lines 258-261. *)
Definition onLayerSelect (layerId : string) : M unit :=
  st <- readStyle ;;
  let idx := indexOfLayer (layers st) layerId in
  setState [SetSelectedLayerIndex idx].

End App.

(** [static getDerivedStateFromProps({mapStyle}, prevState)], lines 74-76. *)
Definition getDerivedStateFromProps (props : Props) (prevState : State)
    : State :=
  merge_state prevState [SetMapStyle (Some (props_mapStyle props))].

(** ** The life of a component instance *)

(** What can happen to a mounted component: new props, the events its
    children and key bindings deliver ([UndoKey] and [RedoKey] are the
    bindings of lines 79-80), and the completion of the requests it
    started.  [DataChange] is the [fetchSources] call of the map's
    [onDataChange]; what the layer watcher finds on that occasion arrives
    as [VectorLayersChange]. *)
Inductive Op :=
| ReceiveProps (props : Props)
| StyleChanged (newStyle : Style) (save : bool)
| UndoKey
| RedoKey
| LayersChange (changedLayers : list Layer)
| LayerIdChange (oldId newId : string)
| LayerChanged (layer : Layer)
| LayerSelect (layerId : string)
| InspectModeToggle
| DataChange
| VectorLayersChange (v : gmap string (list string))
| FontsLoaded (fonts : list string)
| IconsLoaded (icons : list string)
| SourceResponse (key : string) (json : SourceJson)
| SourceFailure (err : Exn).

(** The method an event runs; [ReceiveProps] runs none. *)
Definition handler (env : Env) (op : Op) : M unit :=
  match op with
  | ReceiveProps _ => ret tt
  | StyleChanged newStyle save => onStyleChanged env newStyle save
  | UndoKey => onUndo env
  | RedoKey => onRedo env
  | LayersChange changedLayers => onLayersChange env changedLayers
  | LayerIdChange oldId newId => onLayerIdChange env oldId newId
  | LayerChanged layer => onLayerChanged env layer
  | LayerSelect layerId => onLayerSelect env layerId
  | InspectModeToggle => changeInspectMode env
  | DataChange => fetchSources env
  | VectorLayersChange v => onVectorLayersChange env v
  | FontsLoaded fonts => fontsLoaded env fonts
  | IconsLoaded icons => iconsLoaded env icons
  | SourceResponse key json => sourceResponse env key json
  | SourceFailure err => sourceFailed err
  end.

(** The queued updates become [this.state] when the handler is over,
    whether it returned or threw. *)
Definition commit (c : Comp) : Comp :=
  mkComp (next_state c) (next_state c) (revisionStore c) (trace c).

(** Running a handler to its end on an instance. *)
Definition dispatch (m : M unit) (c : Comp) : Comp := commit (snd (m c)).

(** How the handler ended. *)
Definition outcome (m : M unit) (c : Comp) : Result unit := fst (m c).

(** One event.  React runs [getDerivedStateFromProps] before it renders,
    also when the render follows a [setState]; the methods are described
    by what they queue, and the derivation from the props is an event of
    its own, which may follow any other. *)
Definition step (env : Env) (c : Comp) (op : Op) : Comp :=
  match op with
  | ReceiveProps props =>
      let s := getDerivedStateFromProps props (next_state c) in
      mkComp s s (revisionStore c) (trace c)
  | _ => dispatch (handler env op) c
  end.

Definition run (env : Env) (c : Comp) (ops : list Op) : Comp :=
  foldl (step env) c ops.

(** The effects a handler adds to the trace of [c]. *)
Definition effects_of (m : M unit) (c : Comp) : list Effect :=
  drop (length (trace c)) (trace (snd (m c))).

(** ** A sample environment *)

(** A stand-in for the schema validator: one error per layer without an
    id, as the schema requires layer ids. *)
Definition sample_validate (st : Style) : list ValidationError :=
  (fun l => mkError ("layers: missing required property id") None)
    <$> filter (fun l => id l = "") (layers st).

(** Props as [defaultProps] completes them: [transformRequest] is the
    default; no summaries, an empty specification, batched updates. *)
Definition sample_env : Env :=
  {| validate := sample_validate;
     undoMessages := fun _ _ => [];
     redoMessages := fun _ _ => [];
     transformRequest := default_transformRequest;
     tokens_openmaptiles := "token";
     latest := mkSpec ∅ ∅;
     batched := true |}.

(** The same with a host that passes a [transformRequest] of its own. *)
Definition hosted_env : Env :=
  {| validate := sample_validate;
     undoMessages := fun _ _ => [];
     redoMessages := fun _ _ => [];
     transformRequest := fun url => Some (mkRequest url []);
     tokens_openmaptiles := "token";
     latest := mkSpec ∅ ∅;
     batched := true |}.

(** ** Vocabulary of the properties *)

(** Between two events nothing is queued. *)
Definition at_rest (c : Comp) : Prop := this_state c = next_state c.

(** A state with its source cache blanked: two states that agree on it
    differ in [sources] at most. *)
Definition without_sources (s : State) : State :=
  merge_state s [SetSources ∅].

(** The glyph URL [updateFonts] downloads from when the state holds
    [cur]. *)
Definition glyph_url (env : Env) (cur : Style) (template : option string)
    : option string :=
  replace_first "{key}"
    (or_else
       (default ∅ (metadata cur) !! "maputnik:openmaptiles_access_token")
       (tokens_openmaptiles env))
  <$> template.

(** The effects [fetchSources] can add. *)
Definition fetch_effect (e : Effect) : bool :=
  match e with
  | Fetch _ _ | ConsoleDebug _ => true
  | _ => false
  end.

(** What the loop of [fetchSources] leaves in [sourceList] when it runs to
    its end. *)
Definition cache_after (entries : list (string * Source))
    (sourceList : gmap string SourceEntry) : gmap string SourceEntry :=
  foldl (fun sl kv =>
           if decide (is_Some (sl !! kv.1)) then sl
           else <[ kv.1 := mkEntry (src_type kv.2) [] ]> sl)
        sourceList entries.

(** The style a run of edits should leave in the state, in the words of
    the invariant: the last one that passed validation, the one held
    before when none did. *)
Definition last_accepted (env : Env) (held : option Style)
    (submitted : list Style) : option Style :=
  foldl (fun cur st => if decide (validate env st = []) then Some st else cur)
        held submitted.

(** The events of a list of edits, each with its [save] argument. *)
Definition edits (l : list (Style * bool)) : list Op :=
  (fun e => StyleChanged e.1 e.2) <$> l.

(** The held style passed validation. *)
Definition holds_validated (env : Env) (s : State) : Prop :=
  exists st, mapStyle s = Some st /\ validate env st = [].

(** The held style is undefined or passed validation. *)
Definition validated_or_undefined (env : Env) (s : State) : Prop :=
  forall st, mapStyle s = Some st -> validate env st = [].

(** The selection points into the layer list, when there are layers. *)
Definition selection_in_bounds (s : State) : bool :=
  match mapStyle s with
  | None => true
  | Some st =>
      match layers st with
      | [] => true
      | _ :: _ =>
          match selectedLayerIndex s with
          | Some i => bool_decide (i < length (layers st))
          | None => false
          end
      end
  end.

(** The events that can change the selection or the layer list. *)
Definition selection_op (op : Op) : bool :=
  match op with
  | LayerSelect _ | LayersChange _ | LayerIdChange _ _ | LayerChanged _ => true
  | _ => false
  end.

(** What an event must respect for the selection to stay meaningful:
    [onLayerSelect] names a layer of the current list, [onLayersChange]
    passes a list that is empty or has a layer at the selected position. *)
Definition respects_selection (s : State) (op : Op) : bool :=
  match op with
  | LayerSelect layerId =>
      match mapStyle s with
      | Some st =>
          match indexOfLayer (layers st) layerId with
          | Some _ => true
          | None => false
          end
      | None => true
      end
  | LayersChange changedLayers =>
      match changedLayers, selectedLayerIndex s with
      | [], _ => true
      | _ :: _, Some i => bool_decide (i < length changedLayers)
      | _ :: _, None => false
      end
  | _ => true
  end.

(** Every snapshot of the store passed validation. *)
Definition validated_store (env : Env) (rs : RevisionStore.t) : Prop :=
  Forall (fun st => validate env st = []) (RevisionStore.revisions rs).

(** The events bound to the undo and redo keys. *)
Definition history_event (op : Op) : bool :=
  match op with
  | UndoKey | RedoKey => true
  | _ => false
  end.

(** The props an event brings, when it brings props, carry a style that
    passes validation. *)
Definition props_validated (env : Env) (op : Op) : Prop :=
  match op with
  | ReceiveProps props => validate env (props_mapStyle props) = []
  | _ => True
  end.

(** The cursor of the store is on one of its snapshots, when it has
    any. *)
Definition cursor_in_range (rs : RevisionStore.t) : Prop :=
  RevisionStore.revisions rs = []
  \/ RevisionStore.currentIdx rs < length (RevisionStore.revisions rs).

(** The events other than the arrival of props. *)
Definition own_event (op : Op) : bool :=
  match op with
  | ReceiveProps _ => false
  | _ => true
  end.

(** A sequence of selection events, each respecting the selection in the
    state it arrives in. *)
Fixpoint selection_preserving (env : Env) (c : Comp) (ops : list Op) : bool :=
  match ops with
  | [] => true
  | op :: rest =>
      selection_op op && respects_selection (this_state c) op
      && selection_preserving env (step env c op) rest
  end.

(** ** Sample documents *)

Definition layer_a : Layer := mkLayer "a" [].
Definition layer_b : Layer := mkLayer "b" [].
Definition layer_c : Layer := mkLayer "c" [].
Definition unnamed_layer : Layer := mkLayer "" [].

(** A style with three layers and no source. *)
Definition three_layers : Style :=
  mkStyle None None None [] [layer_a; layer_b; layer_c].

(** A style the sample validator reports an error for. *)
Definition broken_style : Style :=
  mkStyle None None None [] [unnamed_layer].

(** A style that names a glyph URL template. *)
Definition glyph_style : Style :=
  mkStyle (Some "https://fonts.example/{fontstack}/{range}.pbf?key={key}")
          None None [] [layer_a].

(** A style with one vector source given by URL. *)
Definition vector_style : Style :=
  mkStyle None None None
          [("osm", mkSource "vector" (Some "https://tiles.example/osm.json"))]
          [layer_a].

(** * Properties *)

(** ** Running a sequence *)

Lemma bind_run {A B} (m : M A) (k : A -> M B) c a c1 :
  m c = (Ok a, c1) -> bind m k c = k a c1.
Proof. intros H. unfold bind. by rewrite H. Qed.

Lemma bind_fail {A B} (m : M A) (k : A -> M B) c e c1 :
  m c = (Throw e, c1) -> bind m k c = (Throw e, c1).
Proof. intros H. unfold bind. by rewrite H. Qed.

(** ** The source cache *)

Section FetchSources.

Variable env : Env.

Lemma cache_after_keeps entries : forall sl k e,
  sl !! k = Some e -> cache_after entries sl !! k = Some e.
Proof.
  induction entries as [|[key val] rest IH]; intros sl k e Hk; [done|].
  cbn. case_decide as Hin; [by apply IH|].
  apply IH. rewrite lookup_insert_ne; [done|].
  intros ->. apply Hin. by exists e.
Qed.

Lemma cache_after_origin entries : forall sl k e,
  cache_after entries sl !! k = Some e ->
  sl !! k = Some e \/
  (sl !! k = None /\
   exists val, (k, val) ∈ entries /\ e = mkEntry (src_type val) []).
Proof.
  induction entries as [|[key val] rest IH]; intros sl k e Hk; [by left|].
  cbn in Hk. case_decide as Hin.
  - destruct (IH _ _ _ Hk) as [?|(? & v & ? & ?)]; [by left|right].
    split; [done|]. exists v. split; [by right|done].
  - destruct (IH _ _ _ Hk) as [Hl|(Hl & v & ? & ?)].
    + destruct (decide (key = k)) as [->|Hne].
      * rewrite lookup_insert_eq in Hl. right. split.
        { destruct (sl !! k) eqn:E; [|done]. exfalso. apply Hin. eauto. }
        exists val. split; [by left|congruence].
      * rewrite lookup_insert_ne in Hl by done. by left.
    + destruct (decide (key = k)) as [->|Hne].
      * by rewrite lookup_insert_eq in Hl.
      * rewrite lookup_insert_ne in Hl by done. right. split; [done|].
        exists v. split; [by right|done].
Qed.

Lemma cache_after_adds entries : forall sl k,
  k ∈ entries.*1 -> sl !! k = None ->
  exists val, (k, val) ∈ entries /\
              cache_after entries sl !! k = Some (mkEntry (src_type val) []).
Proof.
  induction entries as [|[key val] rest IH]; intros sl k Hk Hnone.
  - by apply elem_of_nil in Hk.
  - cbn. destruct (decide (key = k)) as [->|Hne].
    + case_decide as Hin.
      { rewrite Hnone in Hin. by destruct Hin. }
      exists val. split; [by left|].
      apply cache_after_keeps. by rewrite lookup_insert_eq.
    + cbn in Hk. apply elem_of_cons in Hk as [?|Hk]; [congruence|].
      case_decide as Hin.
      * destruct (IH sl k Hk Hnone) as (v & ? & ?).
        exists v. split; [by right|done].
      * destruct (IH (<[key:=mkEntry (src_type val) []]> sl) k Hk)
          as (v & ? & ?).
        { by rewrite lookup_insert_ne. }
        exists v. split; [by right|done].
Qed.

Lemma fetchSources_loop_spec entries : forall sl c,
  exists fs,
    (fetchSources_loop env entries sl c).2
      = mkComp (this_state c) (next_state c) (revisionStore c)
               (trace c ++ fs)
    /\ (forall e, e ∈ fs ->
          exists k req val url,
            e = Fetch k req /\ (k, val) ∈ entries /\ sl !! k = None /\
            st_sources (this_state c) !! k = None /\
            src_type val = "vector" /\ src_url val = Some url /\
            transformRequest env url = Some req)
    /\ ((fetchSources_loop env entries sl c).1 = Ok (cache_after entries sl)
        \/ ((exists w, (fetchSources_loop env entries sl c).1
                        = Throw (TypeError w))
            /\ exists k val url,
                 (k, val) ∈ entries /\ src_url val = Some url /\
                 transformRequest env url = None)).
Proof.
  induction entries as [|[key val] rest IH]; intros sl c.
  - exists []. cbn. rewrite app_nil_r. destruct c; cbn.
    split; [done|]. split; [|by left]. intros e He. by apply elem_of_nil in He.
  - cbn [fetchSources_loop cache_after foldl fst snd].
    destruct (decide (is_Some (sl !! key))) as [Hin|Hin].
    { destruct (IH sl c) as (fs & Hc & Hfs & Hr). exists fs.
      split; [done|]. split.
      - intros e He. destruct (Hfs e He) as (k & req & v & u & ? & ? & ?).
        exists k, req, v, u. split; [done|]. split; [by right|done].
      - destruct Hr as [Hr|(Hw & k & v & u & ? & ?)]; [by left|right].
        split; [done|]. exists k, v, u. split; [by right|done]. }
    assert (Hnone : sl !! key = None).
    { destruct (sl !! key) eqn:E; [|done]. exfalso. apply Hin. eauto. }
    set (sl' := <[key:=mkEntry (src_type val) []]> sl).
    assert (Hsl' : forall k, sl' !! k = None -> sl !! k = None).
    { intros k. unfold sl'. destruct (decide (key = k)) as [->|?].
      - by rewrite lookup_insert_eq.
      - by rewrite lookup_insert_ne. }
    unfold bind. cbn [getState].
    destruct (bool_decide (st_sources (this_state c) !! key = None)
              && bool_decide (src_type val = "vector")) eqn:Hcond.
    + apply andb_prop in Hcond as [Hc1 Hc2].
      apply bool_decide_eq_true in Hc1, Hc2.
      destruct (src_url val) as [url|] eqn:Hurl.
      * destruct (transformRequest env url) as [req|] eqn:Hreq.
        -- cbn [emit].
           set (c1 := mkComp _ _ _ _).
           destruct (IH sl' c1) as (fs & Hc & Hfs & Hr).
           exists (Fetch key req :: fs). split.
           { rewrite Hc. unfold c1. cbn. by rewrite <- app_assoc. }
           split.
           { intros e He. apply elem_of_cons in He as [->|He].
             - exists key, req, val, url. split; [done|].
               split; [by left|done].
             - destruct (Hfs e He) as (k & rq & v & u & ? & ? & ? & ?).
               exists k, rq, v, u. split; [done|]. split; [by right|].
               split; [by apply Hsl'|done]. }
           destruct Hr as [Hr|(Hw & k & v & u & ? & ?)]; [by left|right].
           split; [done|]. exists k, v, u. split; [by right|done].
        -- unfold throw. cbn. exists []. rewrite app_nil_r.
           destruct c; cbn. split; [done|]. split.
           { intros e He. by apply elem_of_nil in He. }
           right. split; [eauto|]. exists key, val, url.
           split; [by left|done].
      * cbn [ret].
        destruct (IH sl' c) as (fs & Hc & Hfs & Hr). exists fs.
        split; [done|]. split.
        { intros e He. destruct (Hfs e He) as (k & rq & v & u & ? & ? & ? & ?).
          exists k, rq, v, u. split; [done|]. split; [by right|].
          split; [by apply Hsl'|done]. }
        destruct Hr as [Hr|(Hw & k & v & u & ? & ?)]; [by left|right].
        split; [done|]. exists k, v, u. split; [by right|done].
    + cbn [ret].
      destruct (IH sl' c) as (fs & Hc & Hfs & Hr). exists fs.
      split; [done|]. split.
      { intros e He. destruct (Hfs e He) as (k & rq & v & u & ? & ? & ? & ?).
        exists k, rq, v, u. split; [done|]. split; [by right|].
        split; [by apply Hsl'|done]. }
      destruct Hr as [Hr|(Hw & k & v & u & ? & ?)]; [by left|right].
      split; [done|]. exists k, v, u. split; [by right|done].
Qed.

(** What [fetchSources] does, whatever the instance: it ends normally
    with the cache completed, or it throws a [TypeError] with the state
    untouched; the store is left alone and only fetches and console
    lines are added to the trace. *)
Lemma fetchSources_spec c :
  exists fs,
    revisionStore (fetchSources env c).2 = revisionStore c
    /\ trace (fetchSources env c).2 = trace c ++ fs
    /\ (forall e, e ∈ fs -> fetch_effect e = true)
    /\ (forall k req, Fetch k req ∈ fs ->
          exists cur val url,
            mapStyle (this_state c) = Some cur /\
            (k, val) ∈ sources cur /\
            st_sources (this_state c) !! k = None /\
            src_type val = "vector" /\ src_url val = Some url /\
            transformRequest env url = Some req)
    /\ (((fetchSources env c).1 = Ok tt /\
         exists cur,
           mapStyle (this_state c) = Some cur /\
           next_state (fetchSources env c).2
           = (if decide (st_sources (this_state c)
                         = cache_after (sources cur)
                                       (st_sources (this_state c)))
              then next_state c
              else merge_state (next_state c)
                     [SetSources (cache_after (sources cur)
                                    (st_sources (this_state c)))]))
        \/ ((exists w, (fetchSources env c).1 = Throw (TypeError w)) /\
            next_state (fetchSources env c).2 = next_state c /\
            this_state (fetchSources env c).2 = this_state c /\
            (mapStyle (this_state c) = None \/
             exists cur k val url,
               mapStyle (this_state c) = Some cur /\
               (k, val) ∈ sources cur /\ src_url val = Some url /\
               transformRequest env url = None))).
Proof.
  unfold fetchSources, readStyle, bind. cbn [getState].
  destruct (mapStyle (this_state c)) as [cur|] eqn:Hcur.
  - cbn [ret].
    destruct (fetchSources_loop_spec (sources cur)
                (st_sources (this_state c)) c) as (fs & Hc & Hfs & Hr).
    destruct (fetchSources_loop env (sources cur) (st_sources (this_state c)) c)
      as [r c1] eqn:Hloop.
    cbn [fst snd] in Hc, Hr. subst c1.
    destruct Hr as [->|([w ->] & k & val & url & Hk & Hu & Ht)].
    + cbn [this_state].
      destruct (decide (st_sources (this_state c)
                        = cache_after (sources cur)
                                      (st_sources (this_state c))))
        as [Heq|Hne].
      * exists fs. cbn. split; [done|]. split; [done|]. split.
        { intros e He. destruct (Hfs e He) as (? & ? & ? & ? & -> & _). done. }
        split.
        { intros k req He. destruct (Hfs _ He) as (k' & rq & v & u & E & Hrest).
          inversion E; subst k' rq. exists cur, v, u.
          destruct Hrest as (? & _ & ? & ? & ? & ?). done. }
        left. split; [done|]. exists cur. split; [done|].
        by rewrite decide_True.
      * exists (fs ++ [ConsoleDebug "Setting sources"]). cbn.
        split; [done|]. split; [by rewrite app_assoc|]. split.
        { intros e He. apply elem_of_app in He as [He|He].
          - destruct (Hfs e He) as (? & ? & ? & ? & -> & _). done.
          - apply list_elem_of_singleton in He as ->. done. }
        split.
        { intros k req He. apply elem_of_app in He as [He|He].
          - destruct (Hfs _ He) as (k' & rq & v & u & E & Hrest).
            inversion E; subst k' rq. exists cur, v, u.
          destruct Hrest as (? & _ & ? & ? & ? & ?). done.
          - apply list_elem_of_singleton in He. discriminate. }
        left. split; [done|]. exists cur. split; [done|].
        by rewrite decide_False.
    + exists fs. cbn. split; [done|]. split; [done|]. split.
      { intros e He. destruct (Hfs e He) as (? & ? & ? & ? & -> & _). done. }
      split.
      { intros k' req He. destruct (Hfs _ He) as (k'' & rq & v & u & E & Hrest).
        inversion E; subst k'' rq. exists cur, v, u.
          destruct Hrest as (? & _ & ? & ? & ? & ?). done. }
      right. split; [eauto|]. split; [done|]. split; [done|]. right.
      exists cur, k, val, url. done.
  - unfold throw. cbn. exists []. rewrite app_nil_r.
    split; [done|]. split; [done|]. split.
    { intros e He. by apply elem_of_nil in He. }
    split.
    { intros k req He. by apply elem_of_nil in He. }
    right. split; [eauto|]. split; [done|]. split; [done|]. by left.
Qed.

Lemma fetchSources_frame c :
  without_sources (next_state (fetchSources env c).2)
  = without_sources (next_state c).
Proof.
  destruct (fetchSources_spec c) as (fs & _ & _ & _ & _ & H).
  destruct H as [(_ & cur & _ & ->)|(_ & -> & _)]; [|done].
  by case_decide.
Qed.

End FetchSources.

(** ** Edits of the style *)

Section StyleChanged.

Variable env : Env.

Lemma onStyleChanged_accepts c newStyle save cur :
  validate env newStyle = [] ->
  mapStyle (this_state c) = Some cur ->
  exists fs,
    (forall e, e ∈ fs -> fetch_effect e = true)
    /\ without_sources (next_state (onStyleChanged env newStyle save c).2)
       = without_sources
           (merge_state (next_state c)
                        [SetMapStyle (Some newStyle); SetErrors []])
    /\ revisionStore (onStyleChanged env newStyle save c).2
       = RevisionStore.addRevision newStyle (revisionStore c)
    /\ trace (onStyleChanged env newStyle save c).2
       = trace c
         ++ (if decide (glyphs newStyle ≠ glyphs cur)
             then [DownloadGlyphsMetadata (glyph_url env cur (glyphs newStyle))]
             else [])
         ++ (if decide (sprite newStyle ≠ sprite cur)
             then [DownloadSpriteMetadata (sprite newStyle)] else [])
         ++ (if save then [OnSnapshotSave (Some newStyle)] else [])
         ++ fs.
Proof.
  intros Hvalid Hcur. unfold onStyleChanged. rewrite Hvalid.
  cbn [length]. rewrite decide_True by done.
  match goal with
  | |- context [ bind ?body _ c ] =>
      assert (Hbody : exists c1,
        body c = (Ok tt, c1)
        /\ next_state c1 = merge_state (next_state c)
                             [SetMapStyle (Some newStyle); SetErrors []]
        /\ revisionStore c1
           = RevisionStore.addRevision newStyle (revisionStore c)
        /\ trace c1
           = trace c
             ++ (if decide (glyphs newStyle ≠ glyphs cur)
                 then [DownloadGlyphsMetadata
                         (glyph_url env cur (glyphs newStyle))]
                 else [])
             ++ (if decide (sprite newStyle ≠ sprite cur)
                 then [DownloadSpriteMetadata (sprite newStyle)] else [])
             ++ (if save then [OnSnapshotSave (Some newStyle)] else []))
  end.
  { unfold bind, readStyle, updateFonts, updateIcons, saveStyle, readStyle,
      bind, getState, getStore, putStore, setState, emit, ret.
    cbn. rewrite Hcur. cbn.
    destruct (decide (glyphs newStyle ≠ glyphs cur));
      repeat (cbn; rewrite ?Hcur);
      destruct (decide (sprite newStyle ≠ sprite cur));
      destruct save; cbn;
      eexists; (split; [reflexivity|]); cbn;
      rewrite <- ?app_assoc, ?app_nil_r; done. }
  destruct Hbody as (c1 & Hbody & Hn & Hs & Ht).
  rewrite (bind_run _ _ _ _ _ Hbody).
  destruct (fetchSources_spec env c1) as (fs & Hs' & Ht' & Hfs & _).
  exists fs. split; [done|].
  rewrite fetchSources_frame, Hn, Hs', Hs, Ht', Ht.
  by rewrite <- !app_assoc.
Qed.

Lemma onStyleChanged_rejects c newStyle save :
  validate env newStyle ≠ [] ->
  exists fs,
    (forall e, e ∈ fs -> fetch_effect e = true)
    /\ without_sources (next_state (onStyleChanged env newStyle save c).2)
       = without_sources
           (merge_state (next_state c)
                        [SetErrors (message <$> validate env newStyle)])
    /\ revisionStore (onStyleChanged env newStyle save c).2
       = revisionStore c
    /\ trace (onStyleChanged env newStyle save c).2 = trace c ++ fs.
Proof.
  intros Hbad. unfold onStyleChanged.
  rewrite decide_False by (by destruct (validate env newStyle)).
  match goal with
  | |- context [ bind (setState env ?us) _ c ] =>
      set (c1 := (setState env us c).2);
      rewrite (bind_run (setState env us) _ c tt c1 eq_refl)
  end.
  destruct (fetchSources_spec env c1) as (fs & Hs' & Ht' & Hfs & _).
  exists fs. split; [done|].
  by rewrite fetchSources_frame, Hs', Ht'.
Qed.

Lemma onStyleChanged_undefined c newStyle save :
  validate env newStyle = [] ->
  mapStyle (this_state c) = None ->
  onStyleChanged env newStyle save c
  = (Throw (TypeError "this.state.mapStyle is undefined"), c).
Proof.
  intros Hvalid Hcur. unfold onStyleChanged. rewrite Hvalid.
  cbn [length]. rewrite decide_True by done.
  apply bind_fail. apply bind_fail.
  unfold readStyle, bind, getState. by rewrite Hcur.
Qed.

End StyleChanged.

Lemma without_sources_fields s s' :
  without_sources s = without_sources s' ->
  errors s = errors s' /\ infos s = infos s' /\ mapStyle s = mapStyle s' /\
  selectedLayerIndex s = selectedLayerIndex s' /\
  vectorLayers s = vectorLayers s' /\
  inspectModeEnabled s = inspectModeEnabled s' /\ spec s = spec s'.
Proof.
  intros H.
  pose proof (f_equal errors H). pose proof (f_equal infos H).
  pose proof (f_equal mapStyle H). pose proof (f_equal selectedLayerIndex H).
  pose proof (f_equal vectorLayers H).
  pose proof (f_equal inspectModeEnabled H). pose proof (f_equal spec H).
  done.
Qed.

Lemma effects_of_trace (m : M unit) c fs :
  trace (m c).2 = trace c ++ fs -> effects_of m c = fs.
Proof. intros H. unfold effects_of. rewrite H. apply drop_app_length. Qed.

(** C2. An edit for which the validator reports errors leaves [mapStyle]
    as it was (and every other field but [errors] and [sources], and the
    revision store), and sets [errors] to exactly the messages of the
    validator's errors, in their order. *)
Theorem invalid_edit_rejected env c newStyle save :
  at_rest c ->
  validate env newStyle ≠ [] ->
  let c' := step env c (StyleChanged newStyle save) in
  mapStyle (this_state c') = mapStyle (this_state c)
  /\ errors (this_state c') = message <$> validate env newStyle
  /\ without_sources (this_state c')
     = without_sources
         (merge_state (this_state c)
                      [SetErrors (message <$> validate env newStyle)])
  /\ revisionStore c' = revisionStore c.
Proof.
  intros Hrest Hbad c'. subst c'. cbn [step handler dispatch commit this_state
    revisionStore].
  destruct (onStyleChanged_rejects env c newStyle save Hbad)
    as (fs & _ & Hn & Hs & _).
  rewrite Hrest.
  destruct (without_sources_fields _ _ Hn) as (He & _ & Hm & _).
  done.
Qed.

Lemma invalid_edit_rejected_witness :
  let c := constructor sample_env (mkProps three_layers) in
  let c' := step sample_env c (StyleChanged broken_style true) in
  mapStyle (this_state c') = Some three_layers
  /\ errors (this_state c') = ["layers: missing required property id"].
Proof.
  intros c c'.
  destruct (invalid_edit_rejected sample_env c broken_style true)
    as (Hm & He & _).
  - reflexivity.
  - vm_compute. discriminate.
  - split; [exact Hm | exact He].
Defined.

(** C5. The history is a linear stack of whole snapshots: on an instance
    that holds a style, an edit whose style passes validation pushes that
    style, unmodified, as one new revision on top of the store and moves
    the cursor onto it; an edit that fails validation leaves the store as
    it is. *)
Theorem accepted_edit_appended env c newStyle save :
  is_Some (mapStyle (this_state c)) ->
  let c' := step env c (StyleChanged newStyle save) in
  RevisionStore.revisions (revisionStore c')
  = RevisionStore.revisions (revisionStore c)
    ++ (if decide (validate env newStyle = []) then [newStyle] else [])
  /\ revisionStore c'
     = (if decide (validate env newStyle = [])
        then RevisionStore.addRevision newStyle (revisionStore c)
        else revisionStore c).
Proof.
  intros [cur Hcur] c'. subst c'.
  cbn [step handler dispatch commit revisionStore].
  destruct (decide (validate env newStyle = [])) as [Hvalid|Hbad].
  - destruct (onStyleChanged_accepts env c newStyle save cur Hvalid Hcur)
      as (fs & _ & _ & -> & _).
    done.
  - destruct (onStyleChanged_rejects env c newStyle save Hbad)
      as (fs & _ & _ & -> & _).
    by rewrite app_nil_r.
Qed.

Lemma accepted_edit_appended_witness :
  let c := constructor sample_env (mkProps three_layers) in
  RevisionStore.revisions
    (revisionStore (step sample_env c (StyleChanged vector_style true)))
  = [vector_style].
Proof.
  intros c.
  destruct (accepted_edit_appended sample_env c vector_style true) as [H _].
  - exists three_layers. reflexivity.
  - exact H.
Defined.

(** C9. For an edit whose style passes validation, on an instance that
    holds the style [cur], the font metadata download is started exactly
    when the new [glyphs] differs from that of [cur], the sprite metadata
    download exactly when the new [sprite] differs; [onStyleChanged]
    itself never writes the [spec] field. *)
Theorem metadata_refresh_on_change env c newStyle save cur :
  at_rest c ->
  validate env newStyle = [] ->
  mapStyle (this_state c) = Some cur ->
  let fx := effects_of (onStyleChanged env newStyle save) c in
  ((exists u, DownloadGlyphsMetadata u ∈ fx)
     <-> glyphs newStyle ≠ glyphs cur)
  /\ ((exists u, DownloadSpriteMetadata u ∈ fx)
        <-> sprite newStyle ≠ sprite cur)
  /\ spec (this_state (step env c (StyleChanged newStyle save)))
     = spec (this_state c).
Proof.
  intros Hrest Hvalid Hcur fx.
  destruct (onStyleChanged_accepts env c newStyle save cur Hvalid Hcur)
    as (fs & Hfs & Hn & _ & Ht).
  subst fx. rewrite (effects_of_trace _ _ _ Ht).
  assert (Hnf : forall e, e ∈ fs -> fetch_effect e = true) by done.
  split; [|split].
  - split.
    + intros [u Hu]. case_decide; [done|].
      cbn in Hu. rewrite !elem_of_app in Hu.
      destruct Hu as [Hu|[Hu|Hu]].
      * case_decide; [|by apply elem_of_nil in Hu].
        apply list_elem_of_singleton in Hu. discriminate.
      * destruct save; [|by apply elem_of_nil in Hu].
        apply list_elem_of_singleton in Hu. discriminate.
      * apply Hnf in Hu. discriminate.
    + intros Hne. rewrite decide_True by done. eexists. by left.
  - split.
    + intros [u Hu]. rewrite !elem_of_app in Hu.
      destruct Hu as [Hu|[Hu|[Hu|Hu]]].
      * case_decide; [|by apply elem_of_nil in Hu].
        apply list_elem_of_singleton in Hu. discriminate.
      * by case_decide; [|apply elem_of_nil in Hu].
      * destruct save; [|by apply elem_of_nil in Hu].
        apply list_elem_of_singleton in Hu. discriminate.
      * apply Hnf in Hu. discriminate.
    + intros Hne. eexists. rewrite !elem_of_app. right. left.
      rewrite decide_True by done. by left.
  - cbn [step handler dispatch commit this_state]. rewrite Hrest.
    by destruct (without_sources_fields _ _ Hn) as (_ & _ & _ & _ & _ & _ & ->).
Qed.

Lemma metadata_refresh_on_change_witness :
  let c := constructor sample_env (mkProps three_layers) in
  let fx := effects_of (onStyleChanged sample_env glyph_style true) c in
  (exists u, DownloadGlyphsMetadata u ∈ fx)
  /\ ~ (exists u, DownloadSpriteMetadata u ∈ fx).
Proof.
  intros c fx.
  destruct (metadata_refresh_on_change sample_env c glyph_style true
              three_layers) as (Hg & Hs & _).
  - reflexivity.
  - reflexivity.
  - reflexivity.
  - split.
    + apply Hg. discriminate.
    + intros H. apply Hs in H. by apply H.
Defined.

(** ** Props and the inspect mode *)

(** C8. [getDerivedStateFromProps] puts [props.mapStyle] in the [mapStyle]
    field, whatever the validator of the environment says about it, and
    keeps every other field; as an event it touches neither the revision
    store nor the outside. *)
Theorem derived_state_frame env props prevState c :
  let s := getDerivedStateFromProps props prevState in
  mapStyle s = Some (props_mapStyle props)
  /\ errors s = errors prevState
  /\ infos s = infos prevState
  /\ selectedLayerIndex s = selectedLayerIndex prevState
  /\ st_sources s = st_sources prevState
  /\ vectorLayers s = vectorLayers prevState
  /\ inspectModeEnabled s = inspectModeEnabled prevState
  /\ spec s = spec prevState
  /\ this_state (step env c (ReceiveProps props))
     = getDerivedStateFromProps props (next_state c)
  /\ revisionStore (step env c (ReceiveProps props)) = revisionStore c
  /\ trace (step env c (ReceiveProps props)) = trace c.
Proof. by cbn. Qed.

(** C10. [changeInspectMode] flips [inspectModeEnabled] and keeps every
    other field, the revision store and the trace; called twice it gives
    the instance back. *)
Theorem changeInspectMode_involution env c :
  at_rest c ->
  let c1 := step env c InspectModeToggle in
  let c2 := step env c1 InspectModeToggle in
  inspectModeEnabled (this_state c1) = negb (inspectModeEnabled (this_state c))
  /\ this_state c1
     = merge_state (this_state c)
         [SetInspectModeEnabled (negb (inspectModeEnabled (this_state c)))]
  /\ revisionStore c1 = revisionStore c
  /\ trace c1 = trace c
  /\ at_rest c1
  /\ c2 = c.
Proof.
  intros Hrest. destruct c as [s n rs tr].
  unfold at_rest in *. cbn in Hrest. subst n.
  destruct s as [er inf ms sel srcs vl [|] sp]; cbn; done.
Qed.

Lemma changeInspectMode_involution_witness :
  let c := constructor sample_env (mkProps three_layers) in
  inspectModeEnabled (this_state (step sample_env c InspectModeToggle)) = true
  /\ step sample_env (step sample_env c InspectModeToggle) InspectModeToggle
     = c.
Proof.
  intros c.
  destruct (changeInspectMode_involution sample_env c)
    as (H1 & _ & _ & _ & _ & H2).
  - reflexivity.
  - split; [exact H1 | exact H2].
Defined.

(** ** Source metadata *)

(** What [fetchSources] does to the cache: an entry already there is
    neither replaced nor removed; a fetch is started only for a source
    that is not cached, of type "vector" and with a [url]; and, when
    [transformRequest] answers a request object for the URLs of the style,
    every source of the style that was not cached gets an entry with its
    type and an empty layer list. *)
Lemma fetchSources_cache env c cur :
  at_rest c ->
  mapStyle (this_state c) = Some cur ->
  let c' := step env c DataChange in
  let cache := st_sources (this_state c) in
  (forall k e, cache !! k = Some e -> st_sources (this_state c') !! k = Some e)
  /\ (forall k req, Fetch k req ∈ effects_of (fetchSources env) c ->
        cache !! k = None /\
        exists val url, (k, val) ∈ sources cur /\ src_type val = "vector" /\
                        src_url val = Some url /\
                        transformRequest env url = Some req)
  /\ ((forall k val url, (k, val) ∈ sources cur -> src_url val = Some url ->
         is_Some (transformRequest env url)) ->
      outcome (fetchSources env) c = Ok tt
      /\ st_sources (this_state c') = cache_after (sources cur) cache
      /\ forall k, k ∈ (sources cur).*1 -> cache !! k = None ->
           exists val, (k, val) ∈ sources cur /\
             st_sources (this_state c') !! k
             = Some (mkEntry (src_type val) [])).
Proof.
  intros Hrest Hcur c' cache. subst c' cache.
  cbn [step handler dispatch commit this_state].
  destruct (fetchSources_spec env c) as (fs & _ & Ht & _ & Hfetch & Hend).
  rewrite (effects_of_trace _ _ _ Ht).
  assert (Hstate : st_sources (next_state (fetchSources env c).2)
                   = st_sources (this_state c)
                   \/ st_sources (next_state (fetchSources env c).2)
                      = cache_after (sources cur) (st_sources (this_state c))).
  { destruct Hend as [(_ & cur' & Hcur' & ->)|(_ & -> & _)].
    - assert (cur' = cur) as -> by congruence.
      case_decide; [left|right]; [by rewrite Hrest|done].
    - left. by rewrite Hrest. }
  split; [|split].
  - intros k e Hk. destruct Hstate as [->| ->]; [done|].
    by apply cache_after_keeps.
  - intros k req Hin.
    destruct (Hfetch k req Hin)
      as (cur' & val & url & Hcur' & ? & ? & ? & ? & ?).
    assert (cur' = cur) as -> by congruence.
    split; [done|]. by exists val, url.
  - intros Htotal.
    destruct Hend as [(Hok & cur' & Hcur' & Hn)|(_ & _ & _ & Hwhy)].
    + assert (cur' = cur) as -> by congruence.
      assert (Hfinal : st_sources (next_state (fetchSources env c).2)
                       = cache_after (sources cur) (st_sources (this_state c))).
      { rewrite Hn. case_decide as Heq; [|done]. by rewrite <- Hrest. }
      split; [done|]. split; [done|].
      intros k Hk Hnone. rewrite Hfinal. by apply cache_after_adds.
    + exfalso.
      destruct Hwhy
        as [Hnone|(cur' & k & val & url & Hcur' & Hk & Hu & Ht')].
      * congruence.
      * assert (cur' = cur) as -> by congruence.
        destruct (Htotal k val url Hk Hu) as [req Hreq]. congruence.
Qed.

(** C6, at the failing input.  With the props as [defaultProps] completes
    them, [fetchSources] on a style with a vector source given by URL
    throws where it reads [req.url]: no fetch is started and the source
    gets no cache entry. *)
Theorem fetchSources_default_request_throws :
  let c := constructor sample_env (mkProps vector_style) in
  "osm" ∈ (sources vector_style).*1
  /\ st_sources (this_state c) !! "osm" = None
  /\ outcome (fetchSources sample_env) c = Throw (TypeError "req is undefined")
  /\ effects_of (fetchSources sample_env) c = []
  /\ st_sources (this_state (step sample_env c DataChange)) !! "osm" = None.
Proof.
  cbn. split; [by left|]. by vm_compute.
Qed.

(** The same style with a host that passes a working [transformRequest]:
    the entry is created and the fetch started. *)
Example fetchSources_hosted :
  let c := constructor hosted_env (mkProps vector_style) in
  outcome (fetchSources hosted_env) c = Ok tt
  /\ effects_of (fetchSources hosted_env) c
     = [Fetch "osm" (mkRequest "https://tiles.example/osm.json" []);
        ConsoleDebug "Setting sources"]
  /\ st_sources (this_state (step hosted_env c DataChange)) !! "osm"
     = Some (mkEntry "vector" []).
Proof. by vm_compute. Qed.

(** C7, at the failing input.  The [.catch] callback of a source's fetch
    evaluates [url], which nothing binds where the callback is written:
    it throws a [ReferenceError] before [console.error] is called, so
    nothing is logged.  The state, the store and the trace stay as they
    were. *)
Theorem fetch_failure_handler_throws env c err :
  outcome (handler env (SourceFailure err)) c = Throw (ReferenceError "url")
  /\ effects_of (handler env (SourceFailure err)) c = []
  /\ step env c (SourceFailure err) = commit c.
Proof.
  cbn. unfold effects_of. cbn. by rewrite drop_all.
Qed.

(** A failure while the response is processed takes the same path: with
    no cache entry for the source, the [.then] callback throws and the
    [.catch] callback throws in turn. *)
Example response_failure_handler_throws :
  let c := constructor hosted_env (mkProps vector_style) in
  outcome (sourceLoaded hosted_env "osm" (mkJson (Some ["water"]))) c
  = Throw (TypeError "sources[key] is undefined")
  /\ outcome (handler hosted_env
                (SourceResponse "osm" (mkJson (Some ["water"])))) c
     = Throw (ReferenceError "url").
Proof. by vm_compute. Qed.

(** The callback of a successful fetch records the layer ids in the
    entry of the source. *)
Example response_recorded :
  let c := run hosted_env (constructor hosted_env (mkProps vector_style))
               [DataChange;
                SourceResponse "osm" (mkJson (Some ["water"; "roads"]))] in
  st_sources (this_state c) !! "osm"
  = Some (mkEntry "vector" ["water"; "roads"]).
Proof. by vm_compute. Qed.

(** ** Events, one at a time *)

Section Steps.

Variable env : Env.

Lemma step_at_rest c op : at_rest (step env c op).
Proof. by destruct op. Qed.

Lemma run_at_rest c ops : at_rest c -> at_rest (run env c ops).
Proof.
  revert c. induction ops as [|op ops IH]; intros c Hc; [done|].
  cbn. apply IH, step_at_rest.
Qed.

Lemma run_app c ops ops' :
  run env c (ops ++ ops') = run env (run env c ops) ops'.
Proof. apply foldl_app. Qed.

(** The three ways an edit can end. *)
Lemma onStyleChanged_step c newStyle save :
  at_rest c ->
  let c' := step env c (StyleChanged newStyle save) in
  (validate env newStyle = [] /\ is_Some (mapStyle (this_state c)) /\
   without_sources (this_state c')
   = without_sources (merge_state (this_state c)
                        [SetMapStyle (Some newStyle); SetErrors []]) /\
   revisionStore c'
   = RevisionStore.addRevision newStyle (revisionStore c))
  \/ (validate env newStyle ≠ [] /\
      without_sources (this_state c')
      = without_sources (merge_state (this_state c)
                           [SetErrors (message <$> validate env newStyle)]) /\
      revisionStore c' = revisionStore c)
  \/ (validate env newStyle = [] /\ mapStyle (this_state c) = None /\
      this_state c' = this_state c /\ revisionStore c' = revisionStore c).
Proof.
  intros Hrest c'. subst c'.
  cbn [step handler dispatch commit this_state revisionStore].
  destruct (decide (validate env newStyle = [])) as [Hvalid|Hbad].
  - destruct (mapStyle (this_state c)) as [cur|] eqn:Hcur.
    + left.
      destruct (onStyleChanged_accepts env c newStyle save cur Hvalid Hcur)
        as (fs & _ & Hn & Hs & _).
      rewrite Hrest. eauto.
    + right; right.
      rewrite (onStyleChanged_undefined env c newStyle save Hvalid Hcur).
      by rewrite Hrest.
  - right; left.
    destruct (onStyleChanged_rejects env c newStyle save Hbad)
      as (fs & _ & Hn & Hs & _).
    by rewrite Hrest.
Qed.

(** Over a run of edits the held style is the last accepted one. *)
Lemma edits_last_accepted l : forall c,
  at_rest c ->
  is_Some (mapStyle (this_state c)) ->
  mapStyle (this_state (run env c (edits l)))
  = last_accepted env (mapStyle (this_state c)) l.*1.
Proof.
  induction l as [|[st save] l IH]; intros c Hrest Hsome; [done|].
  cbn [edits fmap list_fmap run foldl last_accepted fst snd].
  fold (edits l). fold (run env (step env c (StyleChanged st save)) (edits l)).
  pose proof (step_at_rest c (StyleChanged st save)) as Hrest'.
  pose proof (onStyleChanged_step c st save Hrest) as Hstep. cbv zeta in Hstep.
  remember (step env c (StyleChanged st save)) as c1 eqn:Hc1. clear Hc1.
  destruct Hstep as [(Hv & _ & Hn & _)|[(Hv & Hn & _)|(Hv & Hnone & _)]].
  - apply without_sources_fields in Hn as (_ & _ & Hm & _). cbn in Hm.
    rewrite decide_True by done.
    rewrite IH; [by rewrite Hm|done|by rewrite Hm].
  - apply without_sources_fields in Hn as (_ & _ & Hm & _). cbn in Hm.
    rewrite decide_False by done.
    rewrite IH; [by rewrite Hm|done|by rewrite Hm].
  - rewrite Hnone in Hsome. by destruct Hsome.
Qed.

(** Over a run of accepted edits the store grows by the styles, in
    order, with its cursor on the last one. *)
Lemma edits_store l : forall c,
  at_rest c ->
  is_Some (mapStyle (this_state c)) ->
  Forall (fun e => validate env e.1 = []) l ->
  revisionStore (run env c (edits l))
  = foldl (fun rs st => RevisionStore.addRevision st rs) (revisionStore c)
          l.*1.
Proof.
  induction l as [|[st save] l IH]; intros c Hrest Hsome Hall; [done|].
  apply Forall_cons in Hall as [Hv Hall]. cbn in Hv.
  cbn [edits fmap list_fmap run foldl fst snd].
  fold (edits l). fold (run env (step env c (StyleChanged st save)) (edits l)).
  pose proof (step_at_rest c (StyleChanged st save)) as Hrest'.
  pose proof (onStyleChanged_step c st save Hrest) as Hstep. cbv zeta in Hstep.
  remember (step env c (StyleChanged st save)) as c1 eqn:Hc1. clear Hc1.
  destruct Hstep as [(_ & _ & Hn & Hs)|[(Hbad & _)|(_ & Hnone & _)]].
  - apply without_sources_fields in Hn as (_ & _ & Hm & _). cbn in Hm.
    rewrite IH; [by rewrite Hs|done|by rewrite Hm|done].
  - done.
  - rewrite Hnone in Hsome. by destruct Hsome.
Qed.

End Steps.

Lemma addRevisions_store l : forall rs,
  RevisionStore.revisions
    (foldl (fun rs st => RevisionStore.addRevision st rs) rs l)
  = RevisionStore.revisions rs ++ l
  /\ (l ≠ [] ->
      RevisionStore.currentIdx
        (foldl (fun rs st => RevisionStore.addRevision st rs) rs l)
      = length (RevisionStore.revisions rs ++ l) - 1).
Proof.
  induction l as [|st l IH]; intros rs.
  - cbn. by rewrite app_nil_r.
  - cbn [foldl]. destruct (IH (RevisionStore.addRevision st rs)) as [Hr Hi].
    rewrite Hr. cbn. rewrite <- app_assoc. split; [done|]. intros _.
    destruct l as [|st' l'].
    + cbn. rewrite length_app. cbn. lia.
    + rewrite Hi by done. cbn. by rewrite <- app_assoc.
Qed.

(** ** Undo and redo *)

Lemma last_accepted_all_valid env l : forall held,
  Forall (fun st => validate env st = []) l ->
  l ≠ [] ->
  last_accepted env held l = last l.
Proof.
  induction l as [|st l IH] using rev_ind; intros held Hall Hne; [done|].
  rewrite Forall_app, Forall_singleton in Hall. destruct Hall as [_ Hst].
  unfold last_accepted. rewrite foldl_app. cbn [foldl].
  rewrite decide_True by done. by rewrite last_snoc.
Qed.

Lemma onUndo_step env c :
  step env c UndoKey
  = let rs' := (RevisionStore.undo (revisionStore c)).1 in
    let activeStyle := (RevisionStore.undo (revisionStore c)).2 in
    let s := merge_state (next_state c)
               [SetMapStyle activeStyle;
                SetInfos (undoMessages env (mapStyle (this_state c))
                                       activeStyle)] in
    mkComp s s rs' (trace c ++ [OnSnapshotSave activeStyle]).
Proof. reflexivity. Qed.

Lemma onRedo_step env c :
  step env c RedoKey
  = let rs' := (RevisionStore.redo (revisionStore c)).1 in
    let activeStyle := (RevisionStore.redo (revisionStore c)).2 in
    let s := merge_state (next_state c)
               [SetMapStyle activeStyle;
                SetInfos (redoMessages env (mapStyle (this_state c))
                                       activeStyle)] in
    mkComp s s rs' (trace c ++ [OnSnapshotSave activeStyle]).
Proof. reflexivity. Qed.

(** C4. On an instance that went through one or more accepted edits,
    [onUndo] puts in [mapStyle] the snapshot the revision store gives back
    as the previous revision (the edit before the last; the only one when
    there is one), and [onRedo] after it puts back the snapshot that was
    undone; each hands the snapshot it restored to [onSnapshotSave]. *)
Theorem undo_redo_restores env props l :
  l ≠ [] ->
  Forall (fun e => validate env e.1 = []) l ->
  let c := run env (constructor env props) (edits l) in
  let cu := step env c UndoKey in
  let cr := step env cu RedoKey in
  mapStyle (this_state c) = last l.*1
  /\ mapStyle (this_state cu) = (RevisionStore.undo (revisionStore c)).2
  /\ mapStyle (this_state cu) = l.*1 !! (length l - 2)
  /\ mapStyle (this_state cr) = (RevisionStore.redo (revisionStore cu)).2
  /\ mapStyle (this_state cr) = mapStyle (this_state c)
  /\ trace cu = trace c ++ [OnSnapshotSave (mapStyle (this_state cu))]
  /\ trace cr = trace cu ++ [OnSnapshotSave (mapStyle (this_state cr))].
Proof.
  intros Hne Hall c cu cr.
  assert (Hrest0 : at_rest (constructor env props)) by done.
  assert (Hsome0 : is_Some (mapStyle (this_state (constructor env props))))
    by (by eexists).
  assert (Hm : mapStyle (this_state c) = last l.*1).
  { subst c. rewrite edits_last_accepted by done.
    apply last_accepted_all_valid.
    - by apply Forall_fmap.
    - by destruct l. }
  assert (Hstore : revisionStore c
                   = RevisionStore.mk l.*1 (length l - 1)).
  { subst c. rewrite edits_store by done.
    destruct (addRevisions_store l.*1 RevisionStore.empty) as [Hr Hi].
    destruct (foldl _ _ _) as [revs idx]. cbn in Hr, Hi. subst revs.
    rewrite Hi by (by destruct l). by rewrite length_fmap. }
  subst cr cu. rewrite !onUndo_step, !onRedo_step. cbv zeta.
  cbn [this_state next_state revisionStore trace merge_state foldl apply_field
       mapStyle].
  rewrite Hstore. rewrite Hm.
  assert (Hlen : length l > 0) by (destruct l; [done|cbn; lia]).
  assert (Hundo : (RevisionStore.undo (RevisionStore.mk l.*1 (length l - 1))).2
                  = l.*1 !! (length l - 2)).
  { unfold RevisionStore.undo, RevisionStore.current. cbn.
    case_decide; cbn; f_equal; lia. }
  assert (Hredo : (RevisionStore.redo
                     (RevisionStore.undo
                        (RevisionStore.mk l.*1 (length l - 1))).1).2
                  = last l.*1).
  { rewrite last_lookup, length_fmap.
    unfold RevisionStore.undo, RevisionStore.redo, RevisionStore.current.
    cbn [fst snd RevisionStore.revisions RevisionStore.currentIdx].
    case_decide;
      cbn [fst snd RevisionStore.revisions RevisionStore.currentIdx];
      case_decide;
      cbn [fst snd RevisionStore.revisions RevisionStore.currentIdx] in *;
      rewrite ?length_fmap in *; f_equal; lia. }
  rewrite Hredo, Hundo. done.
Qed.

Lemma undo_redo_restores_witness :
  let c := run hosted_env (constructor hosted_env (mkProps three_layers))
               (edits [(vector_style, true); (glyph_style, false)]) in
  mapStyle (this_state (step hosted_env c UndoKey)) = Some vector_style
  /\ mapStyle (this_state (step hosted_env (step hosted_env c UndoKey) RedoKey))
     = Some glyph_style.
Proof.
  intros c.
  destruct (undo_redo_restores hosted_env (mkProps three_layers)
              [(vector_style, true); (glyph_style, false)])
    as (Hc & _ & Hu & _ & Hr & _).
  - discriminate.
  - repeat constructor.
  - split; [exact Hu|]. fold c in Hc, Hr. rewrite Hr, Hc. reflexivity.
Defined.

(** ** The held style *)

Section HeldStyle.

Variable env : Env.

Lemma onLayersChange_step c changedLayers :
  step env c (LayersChange changedLayers)
  = step env c
      (StyleChanged
         (let base := default empty_object (mapStyle (this_state c)) in
          mkStyle (glyphs base) (sprite base) (metadata base) (sources base)
                  changedLayers)
         true).
Proof. reflexivity. Qed.

Lemma onLayerIdChange_step c oldId newId :
  step env c (LayerIdChange oldId newId)
  = match mapStyle (this_state c) with
    | Some st =>
        let idx := indexOfLayer (layers st) oldId in
        step env c
          (LayersChange
             (array_set (layers st) idx
                (mkLayer newId
                   (default [] (layer_props <$> array_get (layers st) idx)))))
    | None => commit c
    end.
Proof.
  cbn [step handler]. unfold dispatch, onLayerIdChange, readStyle, bind.
  cbn [getState]. by destruct (mapStyle (this_state c)).
Qed.

Lemma onLayerChanged_step c layer :
  step env c (LayerChanged layer)
  = match mapStyle (this_state c) with
    | Some st =>
        step env c
          (LayersChange
             (array_set (layers st) (indexOfLayer (layers st) (id layer))
                        layer))
    | None => commit c
    end.
Proof.
  cbn [step handler]. unfold dispatch, onLayerChanged, readStyle, bind.
  cbn [getState]. by destruct (mapStyle (this_state c)).
Qed.

(** The events that leave the held style and the store alone. *)
Lemma quiet_step c op :
  match op with
  | LayerSelect _ | InspectModeToggle | DataChange | VectorLayersChange _
  | FontsLoaded _ | IconsLoaded _ | SourceResponse _ _ | SourceFailure _ =>
      mapStyle (this_state (step env c op)) = mapStyle (next_state c)
      /\ revisionStore (step env c op) = revisionStore c
  | _ => True
  end.
Proof.
  destruct op as [| | | | | | |layerId| | |v|fonts|icons|key json|err];
    try exact I.
  - cbn. unfold onLayerSelect, readStyle, bind. cbn.
    by destruct (mapStyle (this_state c)).
  - done.
  - cbn [step handler dispatch commit this_state revisionStore].
    destruct (fetchSources_spec env c) as (fs & -> & _).
    split; [|done].
    by destruct (without_sources_fields _ _ (fetchSources_frame env c))
      as (_ & _ & -> & _).
  - done.
  - done.
  - done.
  - cbn. unfold sourceResponse, try_catch, sourceLoaded, bind.
    destruct (vector_layers json) as [[|layer ids]|]; cbn; [done| |done].
    by case_decide.
  - done.
Qed.

Lemma undo_current (rs : RevisionStore.t) st :
  (RevisionStore.undo rs).2 = Some st ->
  st ∈ RevisionStore.revisions (RevisionStore.undo rs).1
  /\ RevisionStore.revisions (RevisionStore.undo rs).1
     = RevisionStore.revisions rs.
Proof.
  unfold RevisionStore.undo, RevisionStore.current. cbn [fst snd].
  intros H. apply list_elem_of_lookup_2 in H. split; [done|].
  by case_decide.
Qed.

Lemma redo_current (rs : RevisionStore.t) st :
  (RevisionStore.redo rs).2 = Some st ->
  st ∈ RevisionStore.revisions (RevisionStore.redo rs).1
  /\ RevisionStore.revisions (RevisionStore.redo rs).1
     = RevisionStore.revisions rs.
Proof.
  unfold RevisionStore.redo, RevisionStore.current. cbn [fst snd].
  intros H. apply list_elem_of_lookup_2 in H. split; [done|].
  by case_decide.
Qed.

Lemma edit_keeps_validated c newStyle save :
  at_rest c ->
  validated_or_undefined env (this_state c) ->
  validated_store env (revisionStore c) ->
  validated_or_undefined env
    (this_state (step env c (StyleChanged newStyle save)))
  /\ validated_store env
       (revisionStore (step env c (StyleChanged newStyle save))).
Proof.
  intros Hrest Hs Hrs.
  pose proof (onStyleChanged_step env c newStyle save Hrest) as Hstep.
  cbv zeta in Hstep.
  remember (step env c (StyleChanged newStyle save)) as c1 eqn:Hc1.
  clear Hc1. unfold validated_or_undefined, validated_store in *.
  destruct Hstep as [(Hv & _ & Hn & ->)|[(_ & Hn & ->)|(_ & _ & -> & ->)]];
    [| |done].
  - apply without_sources_fields in Hn as (_ & _ & Hm & _). cbn in Hm.
    rewrite Hm. split; [by intros st [= <-]|].
    cbn. rewrite Forall_app, Forall_singleton. done.
  - apply without_sources_fields in Hn as (_ & _ & Hm & _). cbn in Hm.
    by rewrite Hm.
Qed.

(** An event of the component's own keeps a validated history. *)
Lemma own_event_keeps_validated c op :
  at_rest c ->
  own_event op = true ->
  validated_or_undefined env (this_state c) ->
  validated_store env (revisionStore c) ->
  validated_or_undefined env (this_state (step env c op))
  /\ validated_store env (revisionStore (step env c op)).
Proof.
  intros Hrest Hown Hs Hrs.
  assert (Hcommit : validated_or_undefined env (this_state (commit c))
                    /\ validated_store env (revisionStore (commit c))).
  { cbn. by rewrite <- Hrest. }
  destruct op as [p|newStyle save| | |ls|oldId newId|layer|layerId| |
                  |v|fonts|icons|key json|err];
    try discriminate.
  - by apply edit_keeps_validated.
  - rewrite onUndo_step. cbv zeta. unfold validated_or_undefined,
      validated_store in *. cbn. split.
    + intros st Hst. apply undo_current in Hst as [Hin Heq].
      rewrite Heq in Hin. by eapply Forall_forall in Hrs.
    + unfold RevisionStore.undo. by case_decide.
  - rewrite onRedo_step. cbv zeta. unfold validated_or_undefined,
      validated_store in *. cbn. split.
    + intros st Hst. apply redo_current in Hst as [Hin Heq].
      rewrite Heq in Hin. by eapply Forall_forall in Hrs.
    + unfold RevisionStore.redo. by case_decide.
  - rewrite onLayersChange_step. by apply edit_keeps_validated.
  - rewrite onLayerIdChange_step.
    destruct (mapStyle (this_state c)); [|done].
    cbv zeta. rewrite onLayersChange_step. by apply edit_keeps_validated.
  - rewrite onLayerChanged_step.
    destruct (mapStyle (this_state c)); [|done].
    rewrite onLayersChange_step. by apply edit_keeps_validated.
  - destruct (quiet_step c (LayerSelect layerId)) as [Hm Hr].
    unfold validated_or_undefined. by rewrite Hm, Hr, <- Hrest.
  - destruct (quiet_step c InspectModeToggle) as [Hm Hr].
    unfold validated_or_undefined. by rewrite Hm, Hr, <- Hrest.
  - destruct (quiet_step c DataChange) as [Hm Hr].
    unfold validated_or_undefined. by rewrite Hm, Hr, <- Hrest.
  - destruct (quiet_step c (VectorLayersChange v)) as [Hm Hr].
    unfold validated_or_undefined. by rewrite Hm, Hr, <- Hrest.
  - destruct (quiet_step c (FontsLoaded fonts)) as [Hm Hr].
    unfold validated_or_undefined. by rewrite Hm, Hr, <- Hrest.
  - destruct (quiet_step c (IconsLoaded icons)) as [Hm Hr].
    unfold validated_or_undefined. by rewrite Hm, Hr, <- Hrest.
  - destruct (quiet_step c (SourceResponse key json)) as [Hm Hr].
    unfold validated_or_undefined. by rewrite Hm, Hr, <- Hrest.
  - destruct (quiet_step c (SourceFailure err)) as [Hm Hr].
    unfold validated_or_undefined. by rewrite Hm, Hr, <- Hrest.
Qed.

Lemma own_events_keep_validated ops : forall c,
  at_rest c ->
  forallb own_event ops = true ->
  validated_or_undefined env (this_state c) ->
  validated_store env (revisionStore c) ->
  validated_or_undefined env (this_state (run env c ops))
  /\ validated_store env (revisionStore (run env c ops)).
Proof.
  induction ops as [|op ops IH]; intros c Hrest Hown Hs Hrs; [done|].
  cbn in Hown. apply andb_prop in Hown as [Hop Hops].
  destruct (own_event_keeps_validated c op Hrest Hop Hs Hrs) as [Hs' Hrs'].
  cbn [run foldl]. apply IH; [apply step_at_rest|done..].
Qed.

(** What one event does to the held style and to the store. *)
Lemma step_style_cases c op :
  at_rest c ->
  (mapStyle (this_state (step env c op)) = mapStyle (this_state c)
   /\ revisionStore (step env c op) = revisionStore c)
  \/ (exists st,
        validate env st = []
        /\ mapStyle (this_state (step env c op)) = Some st
        /\ revisionStore (step env c op)
           = RevisionStore.addRevision st (revisionStore c))
  \/ (exists props,
        op = ReceiveProps props
        /\ mapStyle (this_state (step env c op)) = Some (props_mapStyle props)
        /\ revisionStore (step env c op) = revisionStore c)
  \/ (op = UndoKey
      /\ mapStyle (this_state (step env c op))
         = (RevisionStore.undo (revisionStore c)).2
      /\ revisionStore (step env c op)
         = (RevisionStore.undo (revisionStore c)).1)
  \/ (op = RedoKey
      /\ mapStyle (this_state (step env c op))
         = (RevisionStore.redo (revisionStore c)).2
      /\ revisionStore (step env c op)
         = (RevisionStore.redo (revisionStore c)).1).
Proof.
  intros Hrest.
  assert (Hedit : forall newStyle save,
            (mapStyle (this_state (step env c (StyleChanged newStyle save)))
             = mapStyle (this_state c)
             /\ revisionStore (step env c (StyleChanged newStyle save))
                = revisionStore c)
            \/ (exists st,
                  validate env st = []
                  /\ mapStyle
                       (this_state (step env c (StyleChanged newStyle save)))
                     = Some st
                  /\ revisionStore (step env c (StyleChanged newStyle save))
                     = RevisionStore.addRevision st (revisionStore c))).
  { intros newStyle save.
    pose proof (onStyleChanged_step env c newStyle save Hrest) as Hstep.
    cbv zeta in Hstep.
    remember (step env c (StyleChanged newStyle save)) as c1 eqn:Hc1.
    clear Hc1.
    destruct Hstep as [(Hv & _ & Hn & Hs)|[(_ & Hn & Hs)|(_ & _ & Hn & Hs)]].
    - right. exists newStyle.
      by apply without_sources_fields in Hn as (_ & _ & -> & _).
    - left. by apply without_sources_fields in Hn as (_ & _ & -> & _).
    - left. by rewrite Hn. }
  assert (Hcommit : mapStyle (this_state (commit c)) = mapStyle (this_state c)
                    /\ revisionStore (commit c) = revisionStore c).
  { cbn. by rewrite <- Hrest. }
  assert (Hquiet : forall op',
            mapStyle (this_state (step env c op')) = mapStyle (next_state c)
            /\ revisionStore (step env c op') = revisionStore c ->
            mapStyle (this_state (step env c op')) = mapStyle (this_state c)
            /\ revisionStore (step env c op') = revisionStore c).
  { intros op' [-> ->]. by rewrite <- Hrest. }
  destruct op as [p|newStyle save| | |ls|oldId newId|layer|layerId| |
                  |v|fonts|icons|key json|err].
  - right; right; left. exists p. done.
  - destruct (Hedit newStyle save) as [H|H]; [by left|by right; left].
  - right; right; right; left. by rewrite onUndo_step.
  - right; right; right; right. by rewrite onRedo_step.
  - rewrite onLayersChange_step.
    match goal with
    | |- context [ StyleChanged ?st true ] =>
        destruct (Hedit st true) as [H|H]; [by left|by right; left]
    end.
  - assert (Hstep : step env c (LayerIdChange oldId newId) = commit c
                    \/ exists st, step env c (LayerIdChange oldId newId)
                                   = step env c (StyleChanged st true)).
    { rewrite onLayerIdChange_step.
      destruct (mapStyle (this_state c)); [right|by left].
      cbv zeta. rewrite onLayersChange_step. by eexists. }
    destruct Hstep as [->|[st ->]]; [by left|].
    destruct (Hedit st true) as [H|H]; [by left|by right; left].
  - assert (Hstep : step env c (LayerChanged layer) = commit c
                    \/ exists st, step env c (LayerChanged layer)
                                   = step env c (StyleChanged st true)).
    { rewrite onLayerChanged_step.
      destruct (mapStyle (this_state c)); [right|by left].
      rewrite onLayersChange_step. by eexists. }
    destruct Hstep as [->|[st ->]]; [by left|].
    destruct (Hedit st true) as [H|H]; [by left|by right; left].
  - left. apply Hquiet. apply (quiet_step c (LayerSelect layerId)).
  - left. apply Hquiet. apply (quiet_step c InspectModeToggle).
  - left. apply Hquiet. apply (quiet_step c DataChange).
  - left. apply Hquiet. apply (quiet_step c (VectorLayersChange v)).
  - left. apply Hquiet. apply (quiet_step c (FontsLoaded fonts)).
  - left. apply Hquiet. apply (quiet_step c (IconsLoaded icons)).
  - left. apply Hquiet. apply (quiet_step c (SourceResponse key json)).
  - left. apply Hquiet. apply (quiet_step c (SourceFailure err)).
Qed.

Lemma undo_cursor (rs : RevisionStore.t) :
  cursor_in_range rs ->
  cursor_in_range (RevisionStore.undo rs).1
  /\ RevisionStore.revisions (RevisionStore.undo rs).1
     = RevisionStore.revisions rs
  /\ ((RevisionStore.undo rs).2 = None -> RevisionStore.revisions rs = [])
  /\ (forall st, (RevisionStore.undo rs).2 = Some st ->
         st ∈ RevisionStore.revisions rs).
Proof.
  intros Hin. unfold RevisionStore.undo, RevisionStore.current,
    cursor_in_range in *. cbn [fst snd].
  case_decide; cbn [RevisionStore.revisions RevisionStore.currentIdx].
  - split; [destruct Hin; [by left|right; lia]|]. split; [done|]. split.
    + intros Hnone. destruct Hin as [?|Hlt]; [done|].
      apply lookup_ge_None in Hnone. lia.
    + intros st Hst. by eapply list_elem_of_lookup_2.
  - split; [done|]. split; [done|]. split.
    + intros Hnone. destruct Hin as [?|Hlt]; [done|].
      apply lookup_ge_None in Hnone. lia.
    + intros st Hst. by eapply list_elem_of_lookup_2.
Qed.

Lemma redo_cursor (rs : RevisionStore.t) :
  cursor_in_range rs ->
  cursor_in_range (RevisionStore.redo rs).1
  /\ RevisionStore.revisions (RevisionStore.redo rs).1
     = RevisionStore.revisions rs
  /\ ((RevisionStore.redo rs).2 = None -> RevisionStore.revisions rs = [])
  /\ (forall st, (RevisionStore.redo rs).2 = Some st ->
         st ∈ RevisionStore.revisions rs).
Proof.
  intros Hin. unfold RevisionStore.redo, RevisionStore.current,
    cursor_in_range in *. cbn [fst snd].
  case_decide; cbn [RevisionStore.revisions RevisionStore.currentIdx].
  - split; [by right|]. split; [done|]. split.
    + intros Hnone. apply lookup_ge_None in Hnone. lia.
    + intros st Hst. by eapply list_elem_of_lookup_2.
  - split; [done|]. split; [done|]. split.
    + intros Hnone. destruct Hin as [?|Hlt]; [done|].
      apply lookup_ge_None in Hnone. lia.
    + intros st Hst. by eapply list_elem_of_lookup_2.
Qed.

(** One event whose props, if it brings any, are validated keeps the
    history validated; it leaves [mapStyle] undefined only when it was
    undefined already or the event is an undo or a redo, and then the
    store is empty. *)
Lemma validated_step c op :
  at_rest c ->
  props_validated env op ->
  validated_store env (revisionStore c) ->
  cursor_in_range (revisionStore c) ->
  (holds_validated env (this_state c)
   \/ (mapStyle (this_state c) = None
       /\ RevisionStore.revisions (revisionStore c) = [])) ->
  let c' := step env c op in
  validated_store env (revisionStore c')
  /\ cursor_in_range (revisionStore c')
  /\ (holds_validated env (this_state c')
      \/ (mapStyle (this_state c') = None
          /\ RevisionStore.revisions (revisionStore c') = []
          /\ (mapStyle (this_state c) = None \/ history_event op = true))).
Proof.
  intros Hrest Hprops Hstore Hcursor Hheld c'. subst c'.
  pose proof (step_style_cases c op Hrest) as Hcases.
  remember (step env c op) as c1 eqn:Hc1. clear Hc1.
  unfold validated_store, holds_validated in *.
  destruct Hcases
    as [(Hm & Hs)|[(st & Hv & Hm & Hs)|[(p & -> & Hm & Hs)
       |[(-> & Hm & Hs)|(-> & Hm & Hs)]]]].
  - rewrite Hm, Hs. split; [done|]. split; [done|].
    destruct Hheld as [?|[? ?]]; [by left|right; auto].
  - rewrite Hm, Hs. split.
    { cbn. rewrite Forall_app, Forall_singleton. done. }
    split.
    { unfold cursor_in_range. right. cbn. rewrite length_app. cbn. lia. }
    left. by exists st.
  - rewrite Hm, Hs. split; [done|]. split; [done|].
    left. eexists. split; [done|]. exact Hprops.
  - destruct (undo_cursor (revisionStore c) Hcursor)
      as (Hc' & Hrevs & Hnone & Hsome).
    rewrite Hm, Hs, Hrevs. split; [done|]. split; [done|].
    destruct (RevisionStore.undo (revisionStore c)).2 as [st|] eqn:Hst.
    + left. exists st. split; [done|].
      eapply Forall_forall in Hstore; [exact Hstore|]. by apply Hsome.
    + right. split; [done|]. split; [by apply Hnone|by right].
  - destruct (redo_cursor (revisionStore c) Hcursor)
      as (Hc' & Hrevs & Hnone & Hsome).
    rewrite Hm, Hs, Hrevs. split; [done|]. split; [done|].
    destruct (RevisionStore.redo (revisionStore c)).2 as [st|] eqn:Hst.
    + left. exists st. split; [done|].
      eapply Forall_forall in Hstore; [exact Hstore|]. by apply Hsome.
    + right. split; [done|]. split; [by apply Hnone|by right].
Qed.

Lemma validated_run ops : forall c,
  at_rest c ->
  Forall (props_validated env) ops ->
  validated_store env (revisionStore c) ->
  cursor_in_range (revisionStore c) ->
  (holds_validated env (this_state c)
   \/ (mapStyle (this_state c) = None
       /\ RevisionStore.revisions (revisionStore c) = [])) ->
  let c' := run env c ops in
  validated_store env (revisionStore c')
  /\ cursor_in_range (revisionStore c')
  /\ (holds_validated env (this_state c')
      \/ (mapStyle (this_state c') = None
          /\ RevisionStore.revisions (revisionStore c') = []
          /\ (mapStyle (this_state c) = None
              \/ Exists (fun op => history_event op = true) ops))).
Proof.
  induction ops as [|op ops IH]; intros c Hrest Hops Hstore Hcursor Hheld.
  - cbn. split; [done|]. split; [done|].
    destruct Hheld as [?|[? ?]]; [by left|right; auto].
  - apply Forall_cons in Hops as [Hop Hops].
    destruct (validated_step c op Hrest Hop Hstore Hcursor Hheld)
      as (Hstore1 & Hcursor1 & Hheld1).
    assert (Hheld1' : holds_validated env (this_state (step env c op))
                      \/ (mapStyle (this_state (step env c op)) = None
                          /\ RevisionStore.revisions
                               (revisionStore (step env c op)) = [])).
    { destruct Hheld1 as [?|(? & ? & _)]; [by left|by right]. }
    destruct (IH (step env c op) (step_at_rest env c op) Hops Hstore1
                 Hcursor1 Hheld1') as (Hstore2 & Hcursor2 & Hheld2).
    cbn [run foldl]. split; [done|]. split; [done|].
    destruct Hheld2 as [?|(Hn & He & Hwhy)]; [by left|right].
    split; [done|]. split; [done|].
    destruct Hwhy as [Hn1|Hex]; [|right; by apply Exists_cons_tl].
    destruct Hheld1 as [(st & Hst & _)|(_ & _ & [?|Hh])];
      [congruence|by left|right; by apply Exists_cons_hd].
Qed.

End HeldStyle.

(** C1, as the code has it.  Over a run of [onStyleChanged] calls on an
    instance that holds a style, [mapStyle] is the last submitted style
    that passed validation, the style held before when none passed.
    [onUndo] and [onRedo] put in [mapStyle] what the revision store gives
    back, and [getDerivedStateFromProps] puts [props.mapStyle] there
    without validating it.  So, on an instance constructed with a style
    that passes validation, through any sequence of events in which the
    props that arrive carry styles that pass validation, every snapshot
    of the store passed validation and [mapStyle] is a style that passed
    validation; or it is undefined, and then an undo or a redo came
    before and the revision store is empty. *)
Theorem held_style_last_accepted env :
  (forall c l,
     at_rest c -> is_Some (mapStyle (this_state c)) ->
     mapStyle (this_state (run env c (edits l)))
     = last_accepted env (mapStyle (this_state c)) l.*1)
  /\ (forall c,
        mapStyle (this_state (step env c UndoKey))
        = (RevisionStore.undo (revisionStore c)).2
        /\ mapStyle (this_state (step env c RedoKey))
           = (RevisionStore.redo (revisionStore c)).2)
  /\ (forall c props,
        mapStyle (this_state (step env c (ReceiveProps props)))
        = Some (props_mapStyle props))
  /\ (forall props ops,
        validate env (props_mapStyle props) = [] ->
        Forall (props_validated env) ops ->
        let c := run env (constructor env props) ops in
        validated_store env (revisionStore c)
        /\ (holds_validated env (this_state c)
            \/ (mapStyle (this_state c) = None
                /\ RevisionStore.revisions (revisionStore c) = []
                /\ Exists (fun op => history_event op = true) ops))).
Proof.
  split; [|split; [|split]].
  - intros c l Hrest Hsome. by apply edits_last_accepted.
  - intros c. by rewrite onUndo_step, onRedo_step.
  - done.
  - intros props ops Hvalid Hops c. subst c.
    destruct (validated_run env ops (constructor env props))
      as (Hstore & _ & Hheld); [done|done|by constructor|by left| |].
    { left. by exists (props_mapStyle props). }
    split; [done|].
    destruct Hheld as [?|(Hn & He & [Hc|Hex])]; [by left|done|right; done].
Qed.

Lemma held_style_last_accepted_witness :
  mapStyle
    (this_state
       (run sample_env (constructor sample_env (mkProps three_layers))
            (edits [(glyph_style, true); (broken_style, true)])))
  = Some glyph_style
  /\ holds_validated sample_env
       (this_state
          (run sample_env (constructor sample_env (mkProps three_layers))
               [StyleChanged glyph_style true; UndoKey;
                ReceiveProps (mkProps vector_style); LayerSelect "a"])).
Proof.
  destruct (held_style_last_accepted sample_env) as (Ha & _ & _ & Hb).
  split.
  - rewrite Ha.
    + reflexivity.
    + reflexivity.
    + by eexists.
  - destruct (Hb (mkProps three_layers)
                [StyleChanged glyph_style true; UndoKey;
                 ReceiveProps (mkProps vector_style); LayerSelect "a"])
      as (_ & [Hok|(Hnone & _)]).
    + reflexivity.
    + repeat constructor.
    + exact Hok.
    + discriminate Hnone.
Defined.

(** C1 as stated fails.  Props carrying a style the validator reports
    errors for put that style in the state although it never passed
    validation; and after two accepted edits an undo leaves the first of
    them in the state, not the last style that passed validation. *)
Lemma unvalidated_style_held :
  let c0 := constructor sample_env (mkProps three_layers) in
  validate sample_env three_layers = []
  /\ validate sample_env broken_style ≠ []
  /\ mapStyle (this_state (run sample_env c0
                             [ReceiveProps (mkProps broken_style)]))
     = Some broken_style
  /\ ~ holds_validated sample_env
         (this_state (run sample_env c0
                          [ReceiveProps (mkProps broken_style)]))
  /\ validate sample_env glyph_style = []
  /\ mapStyle (this_state (run sample_env c0
                             [StyleChanged vector_style true;
                              StyleChanged glyph_style true; UndoKey]))
     = Some vector_style.
Proof.
  cbn zeta. split; [done|]. split; [done|]. split; [done|].
  split; [|split; [done|by vm_compute]].
  intros (st & Hst & Hv). vm_compute in Hst. injection Hst as <-.
  discriminate.
Qed.

(** ** The selection *)

Lemma indexOfLayer_found layerId : forall ls i,
  indexOfLayer ls layerId = Some i ->
  exists l, ls !! i = Some l /\ id l = layerId.
Proof.
  induction ls as [|l ls IH]; intros i Hi; [done|].
  cbn in Hi. case_decide as Hid.
  - injection Hi as <-. by exists l.
  - destruct (indexOfLayer ls layerId) as [j|] eqn:Hj; [|done].
    injection Hi as <-. by apply IH.
Qed.

Lemma indexOfLayer_present layerId : forall ls l,
  l ∈ ls -> id l = layerId -> is_Some (indexOfLayer ls layerId).
Proof.
  induction ls as [|l' ls IH]; intros l Hin Hid.
  - by apply elem_of_nil in Hin.
  - cbn. case_decide; [by eexists|].
    apply elem_of_cons in Hin as [->|Hin]; [done|].
    destruct (IH l Hin Hid) as [j ->]. by eexists.
Qed.

Lemma array_set_length arr idx v : length (array_set arr idx v) = length arr.
Proof. destruct idx; [apply length_insert|done]. Qed.

Lemma selection_in_bounds_ext s s' :
  mapStyle s = mapStyle s' ->
  selectedLayerIndex s = selectedLayerIndex s' ->
  selection_in_bounds s = selection_in_bounds s'.
Proof. unfold selection_in_bounds. by intros -> ->. Qed.

Section Selection.

Variable env : Env.

(** [onLayersChange] never writes the selection; the layer list becomes
    the one passed when the changed style is accepted. *)
Lemma onLayersChange_selection c changedLayers :
  at_rest c ->
  let c' := step env c (LayersChange changedLayers) in
  selectedLayerIndex (this_state c') = selectedLayerIndex (this_state c)
  /\ (mapStyle (this_state c') = mapStyle (this_state c)
      \/ exists st, mapStyle (this_state c') = Some st /\
                    layers st = changedLayers).
Proof.
  intros Hrest c'. subst c'. rewrite onLayersChange_step.
  match goal with
  | |- context [ StyleChanged ?st true ] =>
      pose proof (onStyleChanged_step env c st true Hrest) as Hstep;
      cbv zeta in Hstep;
      assert (Hl : layers st = changedLayers) by done;
      remember st as changed eqn:Hchanged; clear Hchanged
  end.
  remember (step env c (StyleChanged changed true)) as c1 eqn:Hc1.
  clear Hc1.
  destruct Hstep as [(_ & _ & Hn & _)|[(_ & Hn & _)|(_ & _ & -> & _)]].
  - apply without_sources_fields in Hn as (_ & _ & Hm & Hsel & _).
    cbn in Hm, Hsel. split; [done|]. right. by exists changed.
  - apply without_sources_fields in Hn as (_ & _ & Hm & Hsel & _).
    cbn in Hm, Hsel. split; [done|]. by left.
  - split; [done|]. by left.
Qed.

Lemma onLayersChange_in_bounds c changedLayers :
  at_rest c ->
  respects_selection (this_state c) (LayersChange changedLayers) = true ->
  selection_in_bounds (this_state c) = true ->
  selection_in_bounds (this_state (step env c (LayersChange changedLayers)))
  = true.
Proof.
  intros Hrest Hresp Hin.
  destruct (onLayersChange_selection c changedLayers Hrest)
    as [Hsel [Hm|(st & Hm & Hl)]].
  - by rewrite (selection_in_bounds_ext _ (this_state c)).
  - unfold selection_in_bounds. rewrite Hm, Hl, Hsel.
    cbn in Hresp. by destruct changedLayers.
Qed.

(** Replacing one layer of the held list keeps a selection in bounds. *)
Lemma replaced_layer_respects c st idx v :
  mapStyle (this_state c) = Some st ->
  selection_in_bounds (this_state c) = true ->
  respects_selection (this_state c)
    (LayersChange (array_set (layers st) idx v)) = true.
Proof.
  intros Hm Hin. unfold selection_in_bounds in Hin. rewrite Hm in Hin.
  cbn. pose proof (array_set_length (layers st) idx v) as Hlen.
  destruct (array_set (layers st) idx v) as [|l ls] eqn:Hset; [done|].
  destruct (layers st) as [|l0 ls0] eqn:Hls; [done|].
  destruct (selectedLayerIndex (this_state c)); [|done].
  apply bool_decide_eq_true in Hin. apply bool_decide_eq_true.
  by rewrite Hlen.
Qed.

Lemma selection_step c op :
  at_rest c ->
  selection_op op = true ->
  respects_selection (this_state c) op = true ->
  selection_in_bounds (this_state c) = true ->
  selection_in_bounds (this_state (step env c op)) = true.
Proof.
  intros Hrest Hop Hresp Hin.
  destruct op as [| | | |ls|oldId newId|layer|layerId| | | | | | |];
    try discriminate.
  - by apply onLayersChange_in_bounds.
  - rewrite onLayerIdChange_step.
    destruct (mapStyle (this_state c)) as [st|] eqn:Hm.
    + cbv zeta. apply onLayersChange_in_bounds; [done| |done].
      by apply replaced_layer_respects.
    + cbn. by rewrite <- Hrest.
  - rewrite onLayerChanged_step.
    destruct (mapStyle (this_state c)) as [st|] eqn:Hm.
    + apply onLayersChange_in_bounds; [done| |done].
      by apply replaced_layer_respects.
    + cbn. by rewrite <- Hrest.
  - cbn in Hresp. cbn [step handler dispatch commit this_state].
    unfold onLayerSelect, readStyle, bind. cbn [getState].
    destruct (mapStyle (this_state c)) as [st|] eqn:Hm.
    + cbn. unfold selection_in_bounds. cbn. rewrite <- Hrest, Hm.
      destruct (indexOfLayer (layers st) layerId) as [i|] eqn:Hi; [|done].
      destruct (indexOfLayer_found _ _ _ Hi) as (l & Hl & _).
      apply lookup_lt_Some in Hl.
      destruct (layers st); [done|]. by apply bool_decide_eq_true.
    + cbn. by rewrite <- Hrest.
Qed.

Lemma selection_run ops : forall c,
  at_rest c ->
  selection_preserving env c ops = true ->
  selection_in_bounds (this_state c) = true ->
  selection_in_bounds (this_state (run env c ops)) = true.
Proof.
  induction ops as [|op ops IH]; intros c Hrest Hops Hin; [done|].
  cbn in Hops. apply andb_prop in Hops as [Hops Hrestops].
  apply andb_prop in Hops as [Hop Hresp].
  cbn [run foldl]. apply IH; [apply step_at_rest|done|].
  by apply selection_step.
Qed.

End Selection.

(** C3, as the code has it.  The constructor selects position 0;
    [onLayerSelect] with the id of a layer of the current list selects the
    position of that layer; [onLayersChange], [onLayerIdChange] and
    [onLayerChanged] leave [selectedLayerIndex] as it is.  So the selection
    is within bounds after any sequence of these events in which every
    [onLayerSelect] names a layer of the current list and every
    [onLayersChange] passes a list that is empty or still has a layer at
    the selected position. *)
Theorem selection_within_bounds env props :
  selectedLayerIndex (this_state (constructor env props)) = Some 0
  /\ (forall c st l,
        at_rest c -> mapStyle (this_state c) = Some st -> l ∈ layers st ->
        exists i l',
          selectedLayerIndex (this_state (step env c (LayerSelect (id l))))
          = Some i
          /\ layers st !! i = Some l' /\ id l' = id l)
  /\ (forall c op,
        at_rest c ->
        match op with
        | LayersChange _ | LayerIdChange _ _ | LayerChanged _ =>
            selectedLayerIndex (this_state (step env c op))
            = selectedLayerIndex (this_state c)
        | _ => True
        end)
  /\ (forall ops,
        selection_preserving env (constructor env props) ops = true ->
        selection_in_bounds
          (this_state (run env (constructor env props) ops)) = true).
Proof.
  split; [done|]. split; [|split].
  - intros c st l Hrest Hm Hl.
    destruct (indexOfLayer_present (id l) (layers st) l Hl eq_refl) as [i Hi].
    destruct (indexOfLayer_found _ _ _ Hi) as (l' & Hl' & Hid).
    exists i, l'. split; [|done].
    cbn [step handler dispatch commit this_state].
    unfold onLayerSelect, readStyle, bind. cbn [getState].
    rewrite Hm. cbn. by rewrite Hi.
  - intros c op Hrest.
    destruct op as [| | | |ls|oldId newId|layer| | | | | | | |]; try exact I.
    + by destruct (onLayersChange_selection env c ls Hrest) as [-> _].
    + rewrite onLayerIdChange_step.
      destruct (mapStyle (this_state c)); [|cbn; by rewrite <- Hrest].
      cbv zeta.
      by destruct (onLayersChange_selection env c
                     (array_set (layers s) (indexOfLayer (layers s) oldId)
                        (mkLayer newId
                           (default [] (layer_props <$>
                              array_get (layers s)
                                (indexOfLayer (layers s) oldId))))) Hrest)
        as [-> _].
    + rewrite onLayerChanged_step.
      destruct (mapStyle (this_state c)); [|cbn; by rewrite <- Hrest].
      by destruct (onLayersChange_selection env c
                     (array_set (layers s)
                        (indexOfLayer (layers s) (id layer)) layer) Hrest)
        as [-> _].
  - intros ops Hops. apply selection_run; [done|done|].
    unfold selection_in_bounds. cbn.
    by destruct (layers (props_mapStyle props)).
Qed.

Lemma selection_within_bounds_witness :
  selection_in_bounds
    (this_state
       (run sample_env (constructor sample_env (mkProps three_layers))
            [LayerSelect "c"; LayerIdChange "c" "d";
             LayersChange [layer_a; layer_b; layer_c; layer_a];
             LayerChanged (mkLayer "a" [("type", "fill")])])) = true.
Proof.
  destruct (selection_within_bounds sample_env (mkProps three_layers))
    as (_ & _ & _ & H).
  apply H. reflexivity.
Defined.

(** C3 as stated fails.  With the third of three layers selected,
    [onLayersChange] with a list of one layer is accepted and leaves the
    selection at position 2 of a list of length 1. *)
Lemma selection_out_of_bounds :
  let c := run sample_env (constructor sample_env (mkProps three_layers))
               [LayerSelect "c"; LayersChange [layer_a]] in
  forallb selection_op [LayerSelect "c"; LayersChange [layer_a]] = true
  /\ selectedLayerIndex (this_state c) = Some 2
  /\ (layers <$> mapStyle (this_state c)) = Some [layer_a]
  /\ selection_in_bounds (this_state c) = false.
Proof. by vm_compute. Qed.
